(** * Shader generation: uids, the uid checker and the texture-encoding
      shader generator

    A shallow embedding of
    - [Source/Core/VideoCommon/ShaderGenCommon.h]: [ShaderUid] and
      [UidChecker] (a [ShaderCode] enters through [GetBuffer()] only);
    - [Source/Core/VideoCommon/TextureConversionShader.cpp]: the
      [TextureConversionShaderDX] encoders and [GenerateEncodingShader].

    Conventions.  A [u8] is a [byte]; wider machine integers are [Z];
    a [char] buffer is a [string] (a sequence of [ascii], NUL included),
    and a C string is the part of a buffer before its first NUL. *)

From Stdlib Require Import ZArith NArith QArith Qround Qabs.
From Stdlib Require Import Strings.String Strings.Ascii Strings.Byte.
From stdpp Require Import gmap strings list pretty.

Open Scope string_scope.
Open Scope Z_scope.

(** ** Bytes, C strings and formatted output *)

#[global] Instance byte_eq_dec : EqDecision byte := Byte.byte_eq_dec.
#[global] Instance byte_countable : Countable byte :=
  inj_countable Byte.to_N Byte.of_N Byte.of_to_N.

Definition NUL : ascii := Ascii.zero.
Definition nl : string := String (ascii_of_nat 10) EmptyString.

(** The C string held in a buffer: the characters before the first NUL. *)
Fixpoint c_str (buf : string) : string :=
  match buf with
  | EmptyString => EmptyString
  | String c rest => if Ascii.eqb c NUL then EmptyString else String c (c_str rest)
  end.

(** The order [memcmp] and [strcmp] compute: the sign of the first
    difference, the elements read as unsigned numbers. *)
Fixpoint lex_cmp (a b : list N) : Z :=
  match a, b with
  | [], [] => 0
  | [], _ :: _ => -1
  | _ :: _, [] => 1
  | x :: a', y :: b' =>
      if (x <? y)%N then -1 else if (y <? x)%N then 1 else lex_cmp a' b'
  end.

(** [memcmp(a, b, n)] on the two [n]-byte windows [a] and [b]. *)
Definition memcmp (a b : list byte) : Z :=
  lex_cmp (Byte.to_N <$> a) (Byte.to_N <$> b).

Definition strcmp (a b : string) : Z :=
  lex_cmp (N_of_ascii <$> list_ascii_of_string (c_str a))
          (N_of_ascii <$> list_ascii_of_string (c_str b)).

Fixpoint fill_string (n : nat) (c : ascii) : string :=
  match n with
  | O => EmptyString
  | S n' => String c (fill_string n' c)
  end.

(** The strings of [l] one after the other. *)
Definition cat (l : list string) : string := foldr String.append "" l.

(** [std::setw(w) << std::setfill(c)] applied to one insertion, and the
    [%0wd] padding of [printf]: pad on the left up to width [w]. *)
Definition setw (w : nat) (c : ascii) (s : string) : string :=
  fill_string (w - String.length s) c +:+ s.

Definition hex_digit (d : Z) : ascii :=
  default "0"%char (list_ascii_of_string "0123456789abcdef" !! Z.to_nat d).

Fixpoint hex_go (fuel : nat) (n : Z) (acc : string) : string :=
  match fuel with
  | O => acc
  | S fuel' =>
      if n <=? 0 then acc
      else hex_go fuel' (n / 16) (String (hex_digit (n mod 16)) acc)
  end.

(** [std::hex] and [%x] on an unsigned value: lower-case digits, no
    prefix, no leading zero. *)
Definition hex (n : Z) : string :=
  if n <=? 0 then "0" else hex_go (Z.to_nat (Z.log2 n) + 1) n "".

(** [std::dec], [%d], [%i]. *)
Definition dec (n : Z) : string := pretty n.

(** [%04i]. *)
Definition fmt_04i (n : Z) : string :=
  if n <? 0 then "-" +:+ setw 3 "0" (dec (- n)) else setw 4 "0" (dec n).

(** ** ShaderGenCommon.h *)

(** The [uid_data] template parameter: its size and the range of bytes
    that [StartValue()] and [NumValues()] declare meaningful. *)
Class UidData := {
  sizeof_uid_data : nat;
  StartValue : nat;
  NumValues : nat
}.

(** [ShaderUid<uid_data>]: the union [{data; values}] seen as its bytes
    ([sizeof(uid_data)] of them), and the memoised [HASH]. *)
Record ShaderUid := {
  values : list byte;
  HASH : Z
}.

(** What the header takes from the rest of the program. *)
Class Host := {
  (** [HashAdler32] of Common/Hash.h *)
  HashAdler32 : list byte → Z;
  (** [File::GetUserPath(D_DUMP_IDX)] *)
  user_dump_path : string;
  (** the bytes that lie after a uid's record in memory (its own [HASH]
      member, then whatever follows the object) *)
  past_the_end : ShaderUid → nat → byte
}.

(** Modelled from the spec: HashAdler32 (Common/Hash.h is not among the
    sources).  Adler-32: two running sums modulo 65521, the first
    starting at 1, combined as [(sum2 << 16) | sum1]. *)
Definition MOD_ADLER : Z := 65521.

Definition adler32_step (ab : Z * Z) (d : byte) : Z * Z :=
  let a := (fst ab + Z.of_N (Byte.to_N d)) mod MOD_ADLER in
  (a, (snd ab + a) mod MOD_ADLER).

Definition adler32 (data : list byte) : Z :=
  let ab := fold_left adler32_step data (1, 0) in
  Z.lor (Z.shiftl (snd ab) 16) (fst ab).

Section ShaderUid.
Context `{D : UidData} `{H : Host}.

(** [values + data.StartValue()], [data.NumValues()] bytes long.  The
    range is taken inside the record: this is what [memcmp] and
    [HashAdler32] read when [StartValue() + NumValues() <=
    sizeof(uid_data)]; a range that runs past the record would reach
    the bytes after it, which this definition leaves out. *)
Definition meaningful (u : ShaderUid) : list byte :=
  take NumValues (drop StartValue (values u)).

(** [ShaderUid() : HASH(0) {}]; the record itself starts out as the
    bytes [init] that happen to be in the object. *)
Definition ShaderUid_new (init : list byte) : ShaderUid :=
  {| values := init; HASH := 0 |}.

(** [memset(values, 0, sizeof(uid_data))]. *)
Definition ClearUID (u : ShaderUid) : ShaderUid :=
  {| values := replicate sizeof_uid_data Byte.x00; HASH := HASH u |}.

(** [CalculateUIDHash], with the calls it makes to [HashAdler32]
    (their arguments, in order) as first component. *)
Definition CalculateUIDHash (u : ShaderUid) : list (list byte) * ShaderUid :=
  if HASH u =? 0
  then ([meaningful u],
        {| values := values u; HASH := HashAdler32 (meaningful u) |})
  else ([], u).

Definition operator_eq (this obj : ShaderUid) : bool :=
  memcmp (meaningful this) (meaningful obj) =? 0.

Definition operator_ne (this obj : ShaderUid) : bool :=
  negb (memcmp (meaningful this) (meaningful obj) =? 0).

Definition operator_lt (this obj : ShaderUid) : bool :=
  memcmp (meaningful this) (meaningful obj) <? 0.

Definition GetUidDataSize (u : ShaderUid) : nat := sizeof_uid_data.

(** [ShaderUidHasher::operator()]. *)
Definition ShaderUidHasher (k : ShaderUid) : Z := HASH k.
End ShaderUid.

(** [UidChecker<UidT, CodeT>].  [m_shaders] is a [std::map] ordered by
    [operator<], which looks at the meaningful bytes only: the key of a
    uid is its meaningful range (see [operator_lt_equiv] below). *)
Record UidChecker := {
  m_shaders : gmap (list byte) string;
  m_uids : list ShaderUid
}.

(** What [AddToIndexAndCheck] touches outside the checker: its static
    counter, the files it writes ([(path, contents)], oldest first) and
    the error log. *)
Record Diagnostics := {
  num_failures : Z;
  files : list (string * string);
  error_log : list string
}.

Definition UidChecker_new : UidChecker := {| m_shaders := ∅; m_uids := [] |}.

Definition Diagnostics_new : Diagnostics :=
  {| num_failures := 0; files := []; error_log := [] |}.

Section UidChecker.
Context `{D : UidData} `{H : Host}.

Definition Invalidate (c : UidChecker) : UidChecker :=
  {| m_shaders := ∅; m_uids := [] |}.

(** Byte [j] of memory counted from the start of the record. *)
Definition raw_byte (u : ShaderUid) (j : nat) : byte :=
  match values u !! j with
  | Some b => b
  | None => past_the_end u (j - length (values u))
  end.

(** [((u32* )&new_uid.GetUidData())[i]], on a little-endian host. *)
Definition raw_u32 (u : ShaderUid) (i : nat) : Z :=
  let b := λ k : nat, Z.of_N (Byte.to_N (raw_byte u (4 * i + k))) in
  b 0%nat + 2 ^ 8 * b 1%nat + 2 ^ 16 * b 2%nat + 2 ^ 24 * b 3%nat.

(** One turn of the loop that dumps the uid; [file] is what the
    stream holds so far. *)
Definition dump_uid_step (new_uid : ShaderUid) (file : string) (i : nat) : string :=
  let value := raw_u32 new_uid i in
  let file :=
    if (i mod 4 =? 0)%nat then
      let last_value :=
        if (i + 3 <? GetUidDataSize new_uid - 1)%nat
        then (i + 3)%nat else GetUidDataSize new_uid in
      file +:+ "Values " +:+ setw 2 " " (dec (Z.of_nat i)) +:+ " - "
           +:+ dec (Z.of_nat last_value) +:+ ": "
    else file in
  let file := file +:+ setw 8 "0" (hex value) in
  if (i mod 4 <? 3)%nat then file +:+ " " else file +:+ nl.

(** [for (unsigned int i = 0; i < new_uid.GetUidDataSize(); ++i)].  The
    bound is the size of the record in bytes while [i] counts 32-bit
    words; the words past the record are read through [past_the_end]. *)
Definition dump_uid (new_uid : ShaderUid) (file : string) : string :=
  fold_left (dump_uid_step new_uid) (seq 0 (GetUidDataSize new_uid)) file.

(** [std::find(m_uids.begin(), m_uids.end(), new_uid) != m_uids.end()]. *)
Definition uid_is_indexed (c : UidChecker) (new_uid : ShaderUid) : bool :=
  existsb (λ u, operator_eq u new_uid) (m_uids c).

(** [new_code] is the buffer [new_code.GetBuffer()] points to.  The
    counter is an [int] that only ever grows by one; no wrap-around is
    modelled for it. *)
Definition AddToIndexAndCheck (new_code : string) (new_uid : ShaderUid)
    (shader_type dump_prefix : string)
    (st : UidChecker * Diagnostics) : UidChecker * Diagnostics :=
  let c := fst st in
  let d := snd st in
  if negb (uid_is_indexed c new_uid) then
    ({| m_shaders := <[meaningful new_uid := c_str new_code]> (m_shaders c);
        m_uids := m_uids c ++ [new_uid] |}, d)
  else
    (* m_shaders[new_uid] creates an empty text when the key is absent *)
    let old_code := default "" (m_shaders c !! meaningful new_uid) in
    let c' := {| m_shaders := <[meaningful new_uid := old_code]> (m_shaders c);
                 m_uids := m_uids c |} in
    if negb (strcmp old_code new_code =? 0) then
      let n := num_failures d + 1 in
      let szTemp := user_dump_path +:+ c_str dump_prefix +:+ "suid_mismatch_"
                      +:+ fmt_04i n +:+ ".txt" in
      let file := "Old shader code:" +:+ nl +:+ old_code in
      let file := file +:+ nl +:+ nl +:+ "New shader code:" +:+ nl +:+ c_str new_code in
      let file := file +:+ nl +:+ nl +:+ "Shader uid:" +:+ nl in
      let file := dump_uid new_uid file in
      (c', {| num_failures := n;
              files := files d ++ [(szTemp, file)];
              error_log := error_log d ++
                [c_str shader_type +:+ " shader uid mismatch! See " +:+ szTemp
                   +:+ " for details"] |})
    else (c', d).

(** The same dump read as groups, one per line of four words. *)
Definition group_count : nat := (sizeof_uid_data + 3) / 4.

Definition group_size (k : nat) : nat := Nat.min 4 (sizeof_uid_data - 4 * k).

Definition group_header (k : nat) : string :=
  let i := (4 * k)%nat in
  let last_value :=
    if (i + 3 <? sizeof_uid_data - 1)%nat then (i + 3)%nat else sizeof_uid_data in
  "Values " +:+ setw 2 " " (dec (Z.of_nat i)) +:+ " - "
    +:+ dec (Z.of_nat last_value) +:+ ": ".

Definition group_words (u : ShaderUid) (k : nat) : list Z :=
  (λ j, raw_u32 u (4 * k + j)) <$> seq 0 (group_size k).

Definition word_text (j : nat) (value : Z) : string :=
  setw 8 "0" (hex value) +:+ (if (j <? 3)%nat then " " else nl).

Definition group_text (u : ShaderUid) (k : nat) : string :=
  group_header k +:+ cat (imap word_text (group_words u k)).

(** The calls a checker can receive. *)
Inductive Op :=
  | OpAdd (new_code : string) (new_uid : ShaderUid) (shader_type dump_prefix : string)
  | OpInvalidate.

Definition run_op (st : UidChecker * Diagnostics) (o : Op) : UidChecker * Diagnostics :=
  match o with
  | OpAdd new_code new_uid shader_type dump_prefix =>
      AddToIndexAndCheck new_code new_uid shader_type dump_prefix st
  | OpInvalidate => (Invalidate (fst st), snd st)
  end.

Definition run_ops (ops : list Op) : UidChecker * Diagnostics :=
  fold_left run_op ops (UidChecker_new, Diagnostics_new).

(** No uid twice in [m_uids], and [m_shaders] has exactly their keys. *)
Definition checker_inv (c : UidChecker) : Prop :=
  NoDup (meaningful <$> m_uids c) ∧
  dom (m_shaders c) = list_to_set (meaningful <$> m_uids c).

(** How often [new_uid] occurs in [m_uids], by [operator==]. *)
Definition uid_count (c : UidChecker) (new_uid : ShaderUid) : nat :=
  length (List.filter (λ u, operator_eq u new_uid) (m_uids c)).
End UidChecker.

(** A small [uid_data] and host on which the definitions can be run:
    five bytes, the first one left out of comparison and hashing. *)
Definition uid5 : UidData :=
  {| sizeof_uid_data := 5; StartValue := 1; NumValues := 4 |}.

Definition host0 : Host :=
  {| HashAdler32 := adler32;
     user_dump_path := "/dump/";
     past_the_end := λ _ _, Byte.x00 |}.

Definition bytes_of (l : list N) : list byte :=
  (λ n, default Byte.x00 (Byte.of_N n)) <$> l.

Definition uid5_a : ShaderUid := {| values := bytes_of [9; 1; 2; 3; 4]%N; HASH := 0 |}.

(** A record of 264 meaningful bytes whose Adler-32 checksum is 0. *)
Definition uid264 : UidData :=
  {| sizeof_uid_data := 264; StartValue := 0; NumValues := 264 |}.

Definition uid264_zero : ShaderUid :=
  {| values := replicate 7 Byte.x00 ++ replicate 119 Byte.xff ++ [Byte.xf0]
                 ++ replicate 137 Byte.xff;
     HASH := 0 |}.

(** ** TextureConversionShader.cpp *)

(** The formats the file names; their numeric values are declared in
    TextureDecoder.h. *)
Inductive TexFormat :=
  | GX_TF_I4 | GX_TF_I8 | GX_TF_IA4 | GX_TF_IA8 | GX_TF_RGB565 | GX_TF_RGB5A3
  | GX_TF_RGBA8 | GX_CTF_R4 | GX_CTF_RA4 | GX_CTF_RA8 | GX_CTF_A8 | GX_CTF_R8
  | GX_CTF_G8 | GX_CTF_B8 | GX_CTF_RG8 | GX_CTF_GB8 | GX_TF_Z8 | GX_TF_Z16
  | GX_TF_Z24X8 | GX_CTF_Z4 | GX_CTF_Z8M | GX_CTF_Z8L | GX_CTF_Z16L.

(** What the file takes from its headers. *)
Class VideoCommon := {
  (** the enumerator a [u32] format code stands for, if it is one of
      those above (TextureDecoder.h) *)
  format_of_u32 : Z → option TexFormat;
  TexDecoder_GetBlockWidthInTexels : TexFormat → Z;
  TexDecoder_GetBlockHeightInTexels : TexFormat → Z;
  (** [TextureConversionShader::GetEncodedSampleCount] *)
  GetEncodedSampleCount : TexFormat → Z;
  (** the macros [I_COLORS] (a string literal, spliced into the format
      strings) and [C_COLORS] (PixelShaderGen.h) *)
  I_COLORS : string;
  C_COLORS : Z
}.

(** A [float] holding a value it represents exactly: the block sizes and
    sample counts, and [255 / 2^k] for the bit depths in use. *)
Definition float : Type := Q.

Definition round_half_even (x : Q) : Z :=
  let f := Qfloor x in
  match Qcompare (x - inject_Z f) (1 # 2) with
  | Lt => f
  | Gt => f + 1
  | Eq => if Z.even f then f else f + 1
  end.

(** [%f] in the "C" numeric locale (the one [GenerateEncodingShader]
    switches to): six digits after the point. *)
Definition fmt_f (x : float) : string :=
  let n := round_half_even (Qabs x * 1000000) in
  (match Qcompare x 0 with Lt => "-" | _ => "" end)
    +:+ dec (n / 1000000) +:+ "." +:+ setw 6 "0" (dec (n mod 1000000)).

(** [%d] given a [u32]. *)
Definition fmt_d_u32 (v : Z) : string :=
  if v <? 2 ^ 31 then dec v else "-" +:+ dec (2 ^ 32 - v).

(** A line of shader text: [s] followed by a newline. *)
Definition ln (s : string) : string := s +:+ nl.

(** [sizeof(text)]. *)
Definition TEXT_SIZE : nat := Z.to_nat 16384.

Definition canary : ascii := ascii_of_nat 124. (* 0x7C *)

(** The file-scope statics, the cursor [p] of the encoder at work (an
    offset into [text]) and the [PanicAlert] messages shown so far.  The
    helpers take [p] by reference; the encoders and [WriteEncoderEnd]
    take it by value, and what they leave in it is not read again. *)
Record Encoder := {
  p : nat;
  text : list ascii;
  IntensityConstantAdded : bool;
  s_incrementSampleXCount : Z;
  alerts : list string
}.

Definition Encoder_init : Encoder :=
  {| p := 0; text := replicate TEXT_SIZE NUL;
     IntensityConstantAdded := false; s_incrementSampleXCount := 0;
     alerts := [] |}.

Definition M (A : Type) : Type := Encoder → A * Encoder.

#[global] Instance M_ret : MRet M := λ A a e, (a, e).
#[global] Instance M_bind : MBind M :=
  λ A B k m e, let r := m e in k (fst r) (snd r).

(** [sprintf(p, ...)] producing [s]: the characters of [s] and a NUL go
    to [text[p..]].  Bytes that would land beyond the array are not part
    of [text]. *)
Definition sprintf (text : list ascii) (p : nat) (s : string) : list ascii :=
  list_inserts p (list_ascii_of_string s ++ [NUL]) text.

(** [#define WRITE p+=sprintf]; [s] is the formatted output. *)
Definition WRITE (s : string) : M unit := λ e,
  (tt, {| p := p e + String.length s;
          text := sprintf (text e) (p e) s;
          IntensityConstantAdded := IntensityConstantAdded e;
          s_incrementSampleXCount := s_incrementSampleXCount e;
          alerts := alerts e |}).

Definition get {A} (f : Encoder → A) : M A := λ e, (f e, e).

Definition set_p (v : nat) : M unit := λ e,
  (tt, {| p := v; text := text e;
          IntensityConstantAdded := IntensityConstantAdded e;
          s_incrementSampleXCount := s_incrementSampleXCount e;
          alerts := alerts e |}).

Definition set_text (i : nat) (c : ascii) : M unit := λ e,
  (tt, {| p := p e; text := <[i := c]> (text e);
          IntensityConstantAdded := IntensityConstantAdded e;
          s_incrementSampleXCount := s_incrementSampleXCount e;
          alerts := alerts e |}).

Definition set_IntensityConstantAdded (b : bool) : M unit := λ e,
  (tt, {| p := p e; text := text e;
          IntensityConstantAdded := b;
          s_incrementSampleXCount := s_incrementSampleXCount e;
          alerts := alerts e |}).

Definition set_s_incrementSampleXCount (v : Z) : M unit := λ e,
  (tt, {| p := p e; text := text e;
          IntensityConstantAdded := IntensityConstantAdded e;
          s_incrementSampleXCount := v;
          alerts := alerts e |}).

Definition PanicAlert (msg : string) : M unit := λ e,
  (tt, {| p := p e; text := text e;
          IntensityConstantAdded := IntensityConstantAdded e;
          s_incrementSampleXCount := s_incrementSampleXCount e;
          alerts := alerts e ++ [msg] |}).

Fixpoint for_ {A} (l : list A) (body : A → M unit) : M unit :=
  match l with
  | [] => mret tt
  | i :: l' => body i ;; for_ l' body
  end.

Module TextureConversionShaderDX.
Section Encoders.
Context `{V : VideoCommon}.

(** Returns the contents of its static [result[64]]. *)
Definition WriteRegister (prefix : string) (num : Z) : string :=
  " : register(" +:+ prefix +:+ fmt_d_u32 num +:+ ")".

(* block dimensions : widthStride, heightStride *)
(* texture dims : width, height, x offset, y offset *)
Definition WriteSwizzler (format : TexFormat) : M unit :=
  (* [0] left, top, right, bottom of source rectangle within source texture *)
  (* [1] width and height of destination texture in pixels *)
  (* Two were merged for GLSL *)
  WRITE (ln ("uniform float4 " +:+ I_COLORS +:+ "[2] " +:+ WriteRegister "c" C_COLORS +:+ ";")) ;;
  let blkW : float := inject_Z (TexDecoder_GetBlockWidthInTexels format) in
  let blkH : float := inject_Z (TexDecoder_GetBlockHeightInTexels format) in
  let samples : float := inject_Z (GetEncodedSampleCount format) in
  WRITE (ln "uniform sampler samp0 : register(s0);") ;;
  WRITE (ln "void main(") ;;
  WRITE (ln "  out float4 ocol0 : SV_Target,") ;;
  WRITE (ln "  in float2 uv0 : TEXCOORD0)") ;;
  WRITE (ln "{" +:+ ln "  float2 sampleUv;" +:+ ln "  float2 uv1 = floor(uv0);") ;;
  WRITE (ln ("  uv1.x = uv1.x * " +:+ fmt_f samples +:+ ";")) ;;
  WRITE (ln ("  float xl =  floor(uv1.x / " +:+ fmt_f blkW +:+ ");")) ;;
  WRITE (ln ("  float xib = uv1.x - (xl * " +:+ fmt_f blkW +:+ ");")) ;;
  WRITE (ln ("  float yl = floor(uv1.y / " +:+ fmt_f blkH +:+ ");")) ;;
  WRITE (ln ("  float yb = yl * " +:+ fmt_f blkH +:+ ";")) ;;
  WRITE (ln "  float yoff = uv1.y - yb;") ;;
  WRITE (ln ("  float xp = uv1.x + (yoff * " +:+ I_COLORS +:+ "[1].x);")) ;;
  WRITE (ln ("  float xel = floor(xp / " +:+ fmt_f blkW +:+ ");")) ;;
  WRITE (ln ("  float xb = floor(xel / " +:+ fmt_f blkH +:+ ");")) ;;
  WRITE (ln ("  float xoff = xel - (xb * " +:+ fmt_f blkH +:+ ");")) ;;
  WRITE (ln ("  sampleUv.x = xib + (xb * " +:+ fmt_f blkW +:+ ");")) ;;
  WRITE (ln "  sampleUv.y = yb + xoff;") ;;
  WRITE (ln ("  sampleUv = sampleUv * " +:+ I_COLORS +:+ "[0].xy;")) ;;
  WRITE (ln ("  sampleUv = sampleUv + " +:+ I_COLORS +:+ "[1].zw;")) ;;
  WRITE (ln "  sampleUv = sampleUv + float2(0.0f,1.0f);") ;; (* still to determine the reason for this *)
  WRITE (ln ("  sampleUv = sampleUv / " +:+ I_COLORS +:+ "[0].zw;")).

(* block dimensions : widthStride, heightStride *)
(* texture dims : width, height, x offset, y offset *)
Definition Write32BitSwizzler (format : TexFormat) : M unit :=
  WRITE (ln ("uniform float4 " +:+ I_COLORS +:+ "[2] " +:+ WriteRegister "c" C_COLORS +:+ ";")) ;;
  let blkW : float := inject_Z (TexDecoder_GetBlockWidthInTexels format) in
  let blkH : float := inject_Z (TexDecoder_GetBlockHeightInTexels format) in
  (* 32 bit textures (RGBA8 and Z24) are store in 2 cache line increments *)
  WRITE (ln "uniform sampler samp0 : register(s0);") ;;
  WRITE (ln "void main(") ;;
  WRITE (ln "  out float4 ocol0 : COLOR0,") ;;
  WRITE (ln "  in float2 uv0 : TEXCOORD0)") ;;
  WRITE (ln "{" +:+ ln "  float2 sampleUv;" +:+ ln "  float2 uv1 = floor(uv0);") ;;
  WRITE (ln ("  float yl = floor(uv1.y / " +:+ fmt_f blkH +:+ ");")) ;;
  WRITE (ln ("  float yb = yl * " +:+ fmt_f blkH +:+ ";")) ;;
  WRITE (ln "  float yoff = uv1.y - yb;") ;;
  WRITE (ln ("  float xp = uv1.x + (yoff * " +:+ I_COLORS +:+ "[1].x);")) ;;
  WRITE (ln "  float xel = floor(xp / 2.0f);") ;;
  WRITE (ln ("  float xb = floor(xel / " +:+ fmt_f blkH +:+ ");")) ;;
  WRITE (ln ("  float xoff = xel - (xb * " +:+ fmt_f blkH +:+ ");")) ;;
  WRITE (ln "  float x2 = uv1.x * 2.0f;") ;;
  WRITE (ln ("  float xl = floor(x2 / " +:+ fmt_f blkW +:+ ");")) ;;
  WRITE (ln ("  float xib = x2 - (xl * " +:+ fmt_f blkW +:+ ");")) ;;
  WRITE (ln "  float halfxb = floor(xb / 2.0f);") ;;
  WRITE (ln ("  sampleUv.x = xib + (halfxb * " +:+ fmt_f blkW +:+ ");")) ;;
  WRITE (ln "  sampleUv.y = yb + xoff;") ;;
  WRITE (ln ("  sampleUv = sampleUv * " +:+ I_COLORS +:+ "[0].xy;")) ;;
  WRITE (ln ("  sampleUv = sampleUv + " +:+ I_COLORS +:+ "[1].zw;")) ;;
  WRITE (ln "  sampleUv = sampleUv + float2(0.0f,1.0f);") ;; (* still to determine the reason for this *)
  WRITE (ln ("  sampleUv = sampleUv / " +:+ I_COLORS +:+ "[0].zw;")).

Definition WriteSampleColor (colorComp dest : string) : M unit :=
  n ← get s_incrementSampleXCount ;
  WRITE (ln ("  " +:+ dest +:+ " = tex2D(samp0, sampleUv + float2(" +:+ dec n
               +:+ ".0f * (" +:+ I_COLORS +:+ "[0].x / " +:+ I_COLORS
               +:+ "[0].z), 0.0f))." +:+ colorComp +:+ ";")).

Definition WriteColorToIntensity (src dest : string) : M unit :=
  added ← get IntensityConstantAdded ;
  (if negb added then
     WRITE (ln "  float4 IntensityConst = float4(0.257f,0.504f,0.098f,0.0625f);") ;;
     set_IntensityConstantAdded true
   else mret tt) ;;
  WRITE (ln ("  " +:+ dest +:+ " = dot(IntensityConst.rgb, " +:+ src +:+ ".rgb);")).
  (* don't add IntensityConst.a yet, because doing it later is faster
     and uses less instructions, due to vectorization *)

(** Only counts; [WriteSampleColor] writes the multiplier out.  The
    counter is an [int]; the encoders keep it between 0 and 7, and no
    overflow is modelled for it. *)
Definition WriteIncrementSampleX : M unit :=
  n ← get s_incrementSampleXCount ;
  set_s_incrementSampleXCount (n + 1).

(** [depth] is a [u8].  [result] is exact in a [float] up to depth
    128; the encoders pass 3, 4, 5 and 6. *)
Definition WriteToBitDepth (depth : Z) (src dest : string) : M unit :=
  let result : float := (255 / Qpower 2 (8 - depth)%Z)%Q in
  WRITE (ln ("  " +:+ dest +:+ " = floor(" +:+ src +:+ " * " +:+ fmt_f result +:+ "f);")).

Definition WriteEncoderEnd : M unit :=
  WRITE (ln "}") ;;
  set_IntensityConstantAdded false ;;
  set_s_incrementSampleXCount 0.

Definition WriteI8Encoder : M unit :=
  WriteSwizzler GX_TF_I8 ;;
  WRITE (ln "  float3 texSample;") ;;
  WriteSampleColor "rgb" "texSample" ;;
  WriteColorToIntensity "texSample" "ocol0.b" ;;
  WriteIncrementSampleX ;;
  WriteSampleColor "rgb" "texSample" ;;
  WriteColorToIntensity "texSample" "ocol0.g" ;;
  WriteIncrementSampleX ;;
  WriteSampleColor "rgb" "texSample" ;;
  WriteColorToIntensity "texSample" "ocol0.r" ;;
  WriteIncrementSampleX ;;
  WriteSampleColor "rgb" "texSample" ;;
  WriteColorToIntensity "texSample" "ocol0.a" ;;
  WRITE (ln "  ocol0.rgba += IntensityConst.aaaa;") ;; (* see WriteColorToIntensity *)
  WriteEncoderEnd.

Definition WriteI4Encoder : M unit :=
  WriteSwizzler GX_TF_I4 ;;
  WRITE (ln "  float3 texSample;") ;;
  WRITE (ln "  float4 color0;") ;;
  WRITE (ln "  float4 color1;") ;;
  WriteSampleColor "rgb" "texSample" ;;
  WriteColorToIntensity "texSample" "color0.b" ;;
  WriteIncrementSampleX ;;
  WriteSampleColor "rgb" "texSample" ;;
  WriteColorToIntensity "texSample" "color1.b" ;;
  WriteIncrementSampleX ;;
  WriteSampleColor "rgb" "texSample" ;;
  WriteColorToIntensity "texSample" "color0.g" ;;
  WriteIncrementSampleX ;;
  WriteSampleColor "rgb" "texSample" ;;
  WriteColorToIntensity "texSample" "color1.g" ;;
  WriteIncrementSampleX ;;
  WriteSampleColor "rgb" "texSample" ;;
  WriteColorToIntensity "texSample" "color0.r" ;;
  WriteIncrementSampleX ;;
  WriteSampleColor "rgb" "texSample" ;;
  WriteColorToIntensity "texSample" "color1.r" ;;
  WriteIncrementSampleX ;;
  WriteSampleColor "rgb" "texSample" ;;
  WriteColorToIntensity "texSample" "color0.a" ;;
  WriteIncrementSampleX ;;
  WriteSampleColor "rgb" "texSample" ;;
  WriteColorToIntensity "texSample" "color1.a" ;;
  WRITE (ln "  color0.rgba += IntensityConst.aaaa;") ;;
  WRITE (ln "  color1.rgba += IntensityConst.aaaa;") ;;
  WriteToBitDepth 4 "color0" "color0" ;;
  WriteToBitDepth 4 "color1" "color1" ;;
  WRITE (ln "  ocol0 = (color0 * 16.0f + color1) / 255.0f;") ;;
  WriteEncoderEnd.

Definition WriteIA8Encoder : M unit :=
  WriteSwizzler GX_TF_IA8 ;;
  WRITE (ln "  float4 texSample;") ;;
  WriteSampleColor "rgba" "texSample" ;;
  WRITE (ln "  ocol0.b = texSample.a;") ;;
  WriteColorToIntensity "texSample" "ocol0.g" ;;
  WriteIncrementSampleX ;;
  WriteSampleColor "rgba" "texSample" ;;
  WRITE (ln "  ocol0.r = texSample.a;") ;;
  WriteColorToIntensity "texSample" "ocol0.a" ;;
  WRITE (ln "  ocol0.ga += IntensityConst.aa;") ;;
  WriteEncoderEnd.

Definition WriteIA4Encoder : M unit :=
  WriteSwizzler GX_TF_IA4 ;;
  WRITE (ln "  float4 texSample;") ;;
  WRITE (ln "  float4 color0;") ;;
  WRITE (ln "  float4 color1;") ;;
  WriteSampleColor "rgba" "texSample" ;;
  WRITE (ln "  color0.b = texSample.a;") ;;
  WriteColorToIntensity "texSample" "color1.b" ;;
  WriteIncrementSampleX ;;
  WriteSampleColor "rgba" "texSample" ;;
  WRITE (ln "  color0.g = texSample.a;") ;;
  WriteColorToIntensity "texSample" "color1.g" ;;
  WriteIncrementSampleX ;;
  WriteSampleColor "rgba" "texSample" ;;
  WRITE (ln "  color0.r = texSample.a;") ;;
  WriteColorToIntensity "texSample" "color1.r" ;;
  WriteIncrementSampleX ;;
  WriteSampleColor "rgba" "texSample" ;;
  WRITE (ln "  color0.a = texSample.a;") ;;
  WriteColorToIntensity "texSample" "color1.a" ;;
  WRITE (ln "  color1.rgba += IntensityConst.aaaa;") ;;
  WriteToBitDepth 4 "color0" "color0" ;;
  WriteToBitDepth 4 "color1" "color1" ;;
  WRITE (ln "  ocol0 = (color0 * 16.0f + color1) / 255.0f;") ;;
  WriteEncoderEnd.

Definition WriteRGB565Encoder : M unit :=
  WriteSwizzler GX_TF_RGB565 ;;
  WriteSampleColor "rgb" "float3 texSample0" ;;
  WriteIncrementSampleX ;;
  WriteSampleColor "rgb" "float3 texSample1" ;;
  WRITE (ln "  float2 texRs = float2(texSample0.r, texSample1.r);") ;;
  WRITE (ln "  float2 texGs = float2(texSample0.g, texSample1.g);") ;;
  WRITE (ln "  float2 texBs = float2(texSample0.b, texSample1.b);") ;;
  WriteToBitDepth 6 "texGs" "float2 gInt" ;;
  WRITE (ln "  float2 gUpper = floor(gInt / 8.0f);") ;;
  WRITE (ln "  float2 gLower = gInt - gUpper * 8.0f;") ;;
  WriteToBitDepth 5 "texRs" "ocol0.br" ;;
  WRITE (ln "  ocol0.br = ocol0.br * 8.0f + gUpper;") ;;
  WriteToBitDepth 5 "texBs" "ocol0.ga" ;;
  WRITE (ln "  ocol0.ga = ocol0.ga + gLower * 32.0f;") ;;
  WRITE (ln "  ocol0 = ocol0 / 255.0f;") ;;
  WriteEncoderEnd.

Definition WriteRGB5A3Encoder : M unit :=
  WriteSwizzler GX_TF_RGB5A3 ;;
  WRITE (ln "  float4 texSample;") ;;
  WRITE (ln "  float color0;") ;;
  WRITE (ln "  float gUpper;") ;;
  WRITE (ln "  float gLower;") ;;
  WriteSampleColor "rgba" "texSample" ;;
  (* 0.8784 = 224 / 255 which is the maximum alpha value that can be represented in 3 bits *)
  WRITE (ln "if(texSample.a > 0.878f) {") ;;
  WriteToBitDepth 5 "texSample.g" "color0" ;;
  WRITE (ln "  gUpper = floor(color0 / 8.0f);") ;;
  WRITE (ln "  gLower = color0 - gUpper * 8.0f;") ;;
  WriteToBitDepth 5 "texSample.r" "ocol0.b" ;;
  WRITE (ln "  ocol0.b = ocol0.b * 4.0f + gUpper + 128.0f;") ;;
  WriteToBitDepth 5 "texSample.b" "ocol0.g" ;;
  WRITE (ln "  ocol0.g = ocol0.g + gLower * 32.0f;") ;;
  WRITE (ln "} else {") ;;
  WriteToBitDepth 4 "texSample.r" "ocol0.b" ;;
  WriteToBitDepth 4 "texSample.b" "ocol0.g" ;;
  WriteToBitDepth 3 "texSample.a" "color0" ;;
  WRITE (ln "ocol0.b = ocol0.b + color0 * 16.0f;") ;;
  WriteToBitDepth 4 "texSample.g" "color0" ;;
  WRITE (ln "ocol0.g = ocol0.g + color0 * 16.0f;") ;;
  WRITE (ln "}") ;;
  WriteIncrementSampleX ;;
  WriteSampleColor "rgba" "texSample" ;;
  WRITE (ln "if(texSample.a > 0.878f) {") ;;
  WriteToBitDepth 5 "texSample.g" "color0" ;;
  WRITE (ln "  gUpper = floor(color0 / 8.0f);") ;;
  WRITE (ln "  gLower = color0 - gUpper * 8.0f;") ;;
  WriteToBitDepth 5 "texSample.r" "ocol0.r" ;;
  WRITE (ln "  ocol0.r = ocol0.r * 4.0f + gUpper + 128.0f;") ;;
  WriteToBitDepth 5 "texSample.b" "ocol0.a" ;;
  WRITE (ln "  ocol0.a = ocol0.a + gLower * 32.0f;") ;;
  WRITE (ln "} else {") ;;
  WriteToBitDepth 4 "texSample.r" "ocol0.r" ;;
  WriteToBitDepth 4 "texSample.b" "ocol0.a" ;;
  WriteToBitDepth 3 "texSample.a" "color0" ;;
  WRITE (ln "ocol0.r = ocol0.r + color0 * 16.0f;") ;;
  WriteToBitDepth 4 "texSample.g" "color0" ;;
  WRITE (ln "ocol0.a = ocol0.a + color0 * 16.0f;") ;;
  WRITE (ln "}") ;;
  WRITE (ln "  ocol0 = ocol0 / 255.0f;") ;;
  WriteEncoderEnd.

Definition WriteRGBA4443Encoder : M unit :=
  WriteSwizzler GX_TF_RGB5A3 ;;
  WRITE (ln "  float4 texSample;") ;;
  WRITE (ln "  float4 color0;") ;;
  WRITE (ln "  float4 color1;") ;;
  WriteSampleColor "rgba" "texSample" ;;
  WriteToBitDepth 3 "texSample.a" "color0.b" ;;
  WriteToBitDepth 4 "texSample.r" "color1.b" ;;
  WriteToBitDepth 4 "texSample.g" "color0.g" ;;
  WriteToBitDepth 4 "texSample.b" "color1.g" ;;
  WriteIncrementSampleX ;;
  WriteSampleColor "rgba" "texSample" ;;
  WriteToBitDepth 3 "texSample.a" "color0.r" ;;
  WriteToBitDepth 4 "texSample.r" "color1.r" ;;
  WriteToBitDepth 4 "texSample.g" "color0.a" ;;
  WriteToBitDepth 4 "texSample.b" "color1.a" ;;
  WRITE (ln "  ocol0 = (color0 * 16.0f + color1) / 255.0f;") ;;
  WriteEncoderEnd.

Definition WriteRGBA8Encoder : M unit :=
  Write32BitSwizzler GX_TF_RGBA8 ;;
  WRITE (ln "  float cl1 = xb - (halfxb * 2.0f);") ;;
  WRITE (ln "  float cl0 = 1.0f - cl1;") ;;
  WRITE (ln "  float4 texSample;") ;;
  WRITE (ln "  float4 color0;") ;;
  WRITE (ln "  float4 color1;") ;;
  WriteSampleColor "rgba" "texSample" ;;
  WRITE (ln "  color0.b = texSample.a;") ;;
  WRITE (ln "  color0.g = texSample.r;") ;;
  WRITE (ln "  color1.b = texSample.g;") ;;
  WRITE (ln "  color1.g = texSample.b;") ;;
  WriteIncrementSampleX ;;
  WriteSampleColor "rgba" "texSample" ;;
  WRITE (ln "  color0.r = texSample.a;") ;;
  WRITE (ln "  color0.a = texSample.r;") ;;
  WRITE (ln "  color1.r = texSample.g;") ;;
  WRITE (ln "  color1.a = texSample.b;") ;;
  WRITE (ln "  ocol0 = (cl0 * color0) + (cl1 * color1);") ;;
  WriteEncoderEnd.

Definition WriteC4Encoder (comp : string) : M unit :=
  WriteSwizzler GX_CTF_R4 ;;
  WRITE (ln "  float4 color0;") ;;
  WRITE (ln "  float4 color1;") ;;
  WriteSampleColor comp "color0.b" ;;
  WriteIncrementSampleX ;;
  WriteSampleColor comp "color1.b" ;;
  WriteIncrementSampleX ;;
  WriteSampleColor comp "color0.g" ;;
  WriteIncrementSampleX ;;
  WriteSampleColor comp "color1.g" ;;
  WriteIncrementSampleX ;;
  WriteSampleColor comp "color0.r" ;;
  WriteIncrementSampleX ;;
  WriteSampleColor comp "color1.r" ;;
  WriteIncrementSampleX ;;
  WriteSampleColor comp "color0.a" ;;
  WriteIncrementSampleX ;;
  WriteSampleColor comp "color1.a" ;;
  WriteToBitDepth 4 "color0" "color0" ;;
  WriteToBitDepth 4 "color1" "color1" ;;
  WRITE (ln "  ocol0 = (color0 * 16.0f + color1) / 255.0f;") ;;
  WriteEncoderEnd.

Definition WriteC8Encoder (comp : string) : M unit :=
  WriteSwizzler GX_CTF_R8 ;;
  WriteSampleColor comp "ocol0.b" ;;
  WriteIncrementSampleX ;;
  WriteSampleColor comp "ocol0.g" ;;
  WriteIncrementSampleX ;;
  WriteSampleColor comp "ocol0.r" ;;
  WriteIncrementSampleX ;;
  WriteSampleColor comp "ocol0.a" ;;
  WriteEncoderEnd.

Definition WriteCC4Encoder (comp : string) : M unit :=
  WriteSwizzler GX_CTF_RA4 ;;
  WRITE (ln "  float2 texSample;") ;;
  WRITE (ln "  float4 color0;") ;;
  WRITE (ln "  float4 color1;") ;;
  WriteSampleColor comp "texSample" ;;
  WRITE (ln "  color0.b = texSample.x;") ;;
  WRITE (ln "  color1.b = texSample.y;") ;;
  WriteIncrementSampleX ;;
  WriteSampleColor comp "texSample" ;;
  WRITE (ln "  color0.g = texSample.x;") ;;
  WRITE (ln "  color1.g = texSample.y;") ;;
  WriteIncrementSampleX ;;
  WriteSampleColor comp "texSample" ;;
  WRITE (ln "  color0.r = texSample.x;") ;;
  WRITE (ln "  color1.r = texSample.y;") ;;
  WriteIncrementSampleX ;;
  WriteSampleColor comp "texSample" ;;
  WRITE (ln "  color0.a = texSample.x;") ;;
  WRITE (ln "  color1.a = texSample.y;") ;;
  WriteToBitDepth 4 "color0" "color0" ;;
  WriteToBitDepth 4 "color1" "color1" ;;
  WRITE (ln "  ocol0 = (color0 * 16.0f + color1) / 255.0f;") ;;
  WriteEncoderEnd.

Definition WriteCC8Encoder (comp : string) : M unit :=
  WriteSwizzler GX_CTF_RA8 ;;
  WriteSampleColor comp "ocol0.bg" ;;
  WriteIncrementSampleX ;;
  WriteSampleColor comp "ocol0.ra" ;;
  WriteEncoderEnd.

Definition WriteZ8Encoder (multiplier : string) : M unit :=
  WriteSwizzler GX_CTF_Z8M ;;
  WRITE (ln " float depth;") ;;
  WriteSampleColor "b" "depth" ;;
  WRITE (ln ("ocol0.b = frac(depth * " +:+ multiplier +:+ ");")) ;;
  WriteIncrementSampleX ;;
  WriteSampleColor "b" "depth" ;;
  WRITE (ln ("ocol0.g = frac(depth * " +:+ multiplier +:+ ");")) ;;
  WriteIncrementSampleX ;;
  WriteSampleColor "b" "depth" ;;
  WRITE (ln ("ocol0.r = frac(depth * " +:+ multiplier +:+ ");")) ;;
  WriteIncrementSampleX ;;
  WriteSampleColor "b" "depth" ;;
  WRITE (ln ("ocol0.a = frac(depth * " +:+ multiplier +:+ ");")) ;;
  WriteEncoderEnd.

Definition WriteZ16Encoder : M unit :=
  WriteSwizzler GX_TF_Z16 ;;
  WRITE (ln "  float depth;") ;;
  WRITE (ln "  float3 expanded;") ;;
  (* byte order is reversed *)
  WriteSampleColor "b" "depth" ;;
  WRITE (ln "  depth *= 16777215.0f;") ;;
  WRITE (ln "  expanded.r = floor(depth / (256.0f * 256.0f));") ;;
  WRITE (ln "  depth -= expanded.r * 256.0f * 256.0f;") ;;
  WRITE (ln "  expanded.g = floor(depth / 256.0f);") ;;
  WRITE (ln "  ocol0.b = expanded.g / 255.0f;") ;;
  WRITE (ln "  ocol0.g = expanded.r / 255.0f;") ;;
  WriteIncrementSampleX ;;
  WriteSampleColor "b" "depth" ;;
  WRITE (ln "  depth *= 16777215.0f;") ;;
  WRITE (ln "  expanded.r = floor(depth / (256.0f * 256.0f));") ;;
  WRITE (ln "  depth -= expanded.r * 256.0f * 256.0f;") ;;
  WRITE (ln "  expanded.g = floor(depth / 256.0f);") ;;
  WRITE (ln "  ocol0.r = expanded.g / 255.0f;") ;;
  WRITE (ln "  ocol0.a = expanded.r / 255.0f;") ;;
  WriteEncoderEnd.

Definition WriteZ16LEncoder : M unit :=
  WriteSwizzler GX_CTF_Z16L ;;
  WRITE (ln "  float depth;") ;;
  WRITE (ln "  float3 expanded;") ;;
  (* byte order is reversed *)
  WriteSampleColor "b" "depth" ;;
  WRITE (ln "  depth *= 16777215.0f;") ;;
  WRITE (ln "  expanded.r = floor(depth / (256.0f * 256.0f));") ;;
  WRITE (ln "  depth -= expanded.r * 256.0f * 256.0f;") ;;
  WRITE (ln "  expanded.g = floor(depth / 256.0f);") ;;
  WRITE (ln "  depth -= expanded.g * 256.0f;") ;;
  WRITE (ln "  expanded.b = depth;") ;;
  WRITE (ln "  ocol0.b = expanded.b / 255.0f;") ;;
  WRITE (ln "  ocol0.g = expanded.g / 255.0f;") ;;
  WriteIncrementSampleX ;;
  WriteSampleColor "b" "depth" ;;
  WRITE (ln "  depth *= 16777215.0f;") ;;
  WRITE (ln "  expanded.r = floor(depth / (256.0f * 256.0f));") ;;
  WRITE (ln "  depth -= expanded.r * 256.0f * 256.0f;") ;;
  WRITE (ln "  expanded.g = floor(depth / 256.0f);") ;;
  WRITE (ln "  depth -= expanded.g * 256.0f;") ;;
  WRITE (ln "  expanded.b = depth;") ;;
  WRITE (ln "  ocol0.r = expanded.b / 255.0f;") ;;
  WRITE (ln "  ocol0.a = expanded.g / 255.0f;") ;;
  WriteEncoderEnd.

Definition WriteZ24Encoder : M unit :=
  Write32BitSwizzler GX_TF_Z24X8 ;;
  WRITE (ln "  float cl = xb - (halfxb * 2.0f);") ;;
  WRITE (ln "  float depth0;") ;;
  WRITE (ln "  float depth1;") ;;
  WRITE (ln "  float3 expanded0;") ;;
  WRITE (ln "  float3 expanded1;") ;;
  WriteSampleColor "b" "depth0" ;;
  WriteIncrementSampleX ;;
  WriteSampleColor "b" "depth1" ;;
  for_ [0; 1] (λ i,
    WRITE (ln ("  depth" +:+ dec i +:+ " *= 16777215.0f;")) ;;
    WRITE (ln ("  expanded" +:+ dec i +:+ ".r = floor(depth" +:+ dec i +:+ " / (256.0f * 256.0f));")) ;;
    WRITE (ln ("  depth" +:+ dec i +:+ " -= expanded" +:+ dec i +:+ ".r * 256.0f * 256.0f;")) ;;
    WRITE (ln ("  expanded" +:+ dec i +:+ ".g = floor(depth" +:+ dec i +:+ " / 256.0f);")) ;;
    WRITE (ln ("  depth" +:+ dec i +:+ " -= expanded" +:+ dec i +:+ ".g * 256.0f;")) ;;
    WRITE (ln ("  expanded" +:+ dec i +:+ ".b = depth" +:+ dec i +:+ ";"))) ;;
  WRITE (ln "  if(cl > 0.5f) {") ;;
  (* upper 16 *)
  WRITE (ln "     ocol0.b = expanded0.g / 255.0f;") ;;
  WRITE (ln "     ocol0.g = expanded0.b / 255.0f;") ;;
  WRITE (ln "     ocol0.r = expanded1.g / 255.0f;") ;;
  WRITE (ln "     ocol0.a = expanded1.b / 255.0f;") ;;
  WRITE (ln "  } else {") ;;
  (* lower 8 *)
  WRITE (ln "     ocol0.b = 1.0f;") ;;
  WRITE (ln "     ocol0.g = expanded0.r / 255.0f;") ;;
  WRITE (ln "     ocol0.r = 1.0f;") ;;
  WRITE (ln "     ocol0.a = expanded1.r / 255.0f;") ;;
  WRITE (ln "  }") ;;
  WriteEncoderEnd.


(** The switch of [GenerateEncodingShader]. *)
Definition dispatch (format : Z) : M unit :=
  match format_of_u32 format with
  | Some GX_TF_I4 => WriteI4Encoder
  | Some GX_TF_I8 => WriteI8Encoder
  | Some GX_TF_IA4 => WriteIA4Encoder
  | Some GX_TF_IA8 => WriteIA8Encoder
  | Some GX_TF_RGB565 => WriteRGB565Encoder
  | Some GX_TF_RGB5A3 => WriteRGB5A3Encoder
  | Some GX_TF_RGBA8 => WriteRGBA8Encoder
  | Some GX_CTF_R4 => WriteC4Encoder "r"
  | Some GX_CTF_RA4 => WriteCC4Encoder "ar"
  | Some GX_CTF_RA8 => WriteCC8Encoder "ar"
  | Some GX_CTF_A8 => WriteC8Encoder "a"
  | Some GX_CTF_R8 => WriteC8Encoder "r"
  | Some GX_CTF_G8 => WriteC8Encoder "g"
  | Some GX_CTF_B8 => WriteC8Encoder "b"
  | Some GX_CTF_RG8 => WriteCC8Encoder "rg"
  | Some GX_CTF_GB8 => WriteCC8Encoder "gb"
  | Some GX_TF_Z8 => WriteC8Encoder "b"
  | Some GX_TF_Z16 => WriteZ16Encoder
  | Some GX_TF_Z24X8 => WriteZ24Encoder
  | Some GX_CTF_Z4 => WriteC4Encoder "b"
  | Some GX_CTF_Z8M => WriteZ8Encoder "256.0f"
  | Some GX_CTF_Z8L => WriteZ8Encoder "65536.0f"
  | Some GX_CTF_Z16L => WriteZ16LEncoder
  | None => PanicAlert (ln ("Unknown texture copy format: 0x" +:+ hex format))
  end.

Definition canary_message : string :=
  "TextureConversionShader generator - buffer too small, canary has been eaten!".

(** [if (text[sizeof(text) - 1] != 0x7C) PanicAlert(...)]. *)
Definition check_canary : M unit :=
  t ← get text ;
  if bool_decide (t !! (TEXT_SIZE - 1)%nat = Some canary) then mret tt
  else PanicAlert canary_message.

(** The value returned is the C string [text] holds on return.  The
    "C" numeric locale set around the body is what [fmt_f] prints in. *)
Definition GenerateEncodingShader (format : Z) : M string :=
  set_text (TEXT_SIZE - 1) canary ;; (* canary *)
  set_p 0 ;;
  dispatch format ;;
  check_canary ;;
  t ← get text ;
  mret (c_str (string_of_list_ascii t)).

End Encoders.
End TextureConversionShaderDX.

(** The state [GenerateEncodingShader] enters its switch with: the canary
    set, [p] at the start of [text]. *)
Definition at_switch (e : Encoder) : Encoder :=
  snd ((set_text (TEXT_SIZE - 1) canary ;; set_p 0) e).

(** The calls of [GenerateEncodingShader] a program makes, from start-up. *)
Definition run_calls `{V : VideoCommon} (formats : list Z) : Encoder :=
  fold_left (λ e format, snd (TextureConversionShaderDX.GenerateEncodingShader format e))
    formats Encoder_init.

(** Several [WRITE]s in a row, as they act on [text]. *)
Fixpoint sprintf_all (text : list ascii) (p : nat) (ws : list string) : list ascii :=
  match ws with
  | [] => text
  | w :: ws' => sprintf_all (sprintf text p w) (p + String.length w) ws'
  end.

Definition total_length (ws : list string) : nat :=
  foldr (λ w n, (String.length w + n)%nat) 0%nat ws.

(** [e] with other contents of [text] and other alerts on record. *)
Definition frame (e : Encoder) (t : list ascii) (al : list string) : Encoder :=
  {| p := p e; text := t;
     IntensityConstantAdded := IntensityConstantAdded e;
     s_incrementSampleXCount := s_incrementSampleXCount e;
     alerts := al |}.

(** [m] never reads [text] or the alerts: whatever they hold, it makes
    the same [WRITE]s, one after the other from [p] on, and shows the
    same alerts. *)
Definition Writes {A} (m : M A) : Prop :=
  ∀ e, ∃ ws al',
    p (snd (m e)) = (p e + total_length ws)%nat ∧
    ∀ t al, m (frame e t al) =
      (fst (m e), frame (snd (m e)) (sprintf_all t (p e) ws) (al ++ al')).

(** [m] ends with the two statics as [WriteEncoderEnd] leaves them. *)
Definition Resets {A} (m : M A) : Prop :=
  ∀ e, IntensityConstantAdded (snd (m e)) = false ∧
       s_incrementSampleXCount (snd (m e)) = 0.





(** An instance of the header's side on which the encoders can be run. *)
Definition sample_video : VideoCommon :=
  {| format_of_u32 := λ v,
       match v with
       | 0 => Some GX_TF_I4 | 1 => Some GX_TF_I8 | 2 => Some GX_TF_IA4
       | 3 => Some GX_TF_IA8 | 4 => Some GX_TF_RGB565 | 5 => Some GX_TF_RGB5A3
       | 6 => Some GX_TF_RGBA8 | 32 => Some GX_CTF_R4 | 34 => Some GX_CTF_RA4
       | 35 => Some GX_CTF_RA8 | 39 => Some GX_CTF_A8 | 40 => Some GX_CTF_R8
       | 41 => Some GX_CTF_G8 | 42 => Some GX_CTF_B8 | 43 => Some GX_CTF_RG8
       | 44 => Some GX_CTF_GB8 | 17 => Some GX_TF_Z8 | 19 => Some GX_TF_Z16
       | 22 => Some GX_TF_Z24X8 | 48 => Some GX_CTF_Z4 | 57 => Some GX_CTF_Z8M
       | 58 => Some GX_CTF_Z8L | 60 => Some GX_CTF_Z16L
       | _ => None
       end;
     TexDecoder_GetBlockWidthInTexels := λ f,
       match f with
       | GX_TF_I4 | GX_TF_I8 | GX_TF_IA4 | GX_CTF_R4 | GX_CTF_RA4 | GX_CTF_A8
       | GX_CTF_R8 | GX_CTF_G8 | GX_CTF_B8 | GX_TF_Z8 | GX_CTF_Z4 | GX_CTF_Z8M
       | GX_CTF_Z8L => 8
       | _ => 4
       end;
     TexDecoder_GetBlockHeightInTexels := λ f,
       match f with
       | GX_TF_I4 | GX_CTF_R4 | GX_CTF_Z4 => 8
       | _ => 4
       end;
     GetEncodedSampleCount := λ f,
       match f with
       | GX_TF_I4 | GX_CTF_R4 | GX_CTF_Z4 => 8
       | GX_TF_I8 | GX_TF_IA4 | GX_CTF_RA4 | GX_CTF_A8 | GX_CTF_R8 | GX_CTF_G8
       | GX_CTF_B8 | GX_TF_Z8 | GX_CTF_Z8M | GX_CTF_Z8L => 4
       | GX_TF_RGBA8 | GX_TF_Z24X8 => 1
       | _ => 2
       end;
     I_COLORS := "color";
     C_COLORS := 0 |}.

(** ** More of ShaderGenCommon.h: repeated calls, [ShaderCode], the
       declaration helpers *)

(** [AddToIndexAndCheck] called for each of [calls] in turn. *)
Definition add_all `{D : UidData} `{H : Host} (calls : list (string * ShaderUid))
    (shader_type dump_prefix : string)
    (st : UidChecker * Diagnostics) : UidChecker * Diagnostics :=
  fold_left (λ st call, AddToIndexAndCheck (fst call) (snd call) shader_type dump_prefix st)
    calls st.

(** The name [AddToIndexAndCheck] gives its [n]-th dump file. *)
Definition dump_path `{H : Host} (dump_prefix : string) (n : Z) : string :=
  user_dump_path +:+ c_str dump_prefix +:+ "suid_mismatch_" +:+ fmt_04i n +:+ ".txt".

(** The calls a checker received, read as a history ([past] has the
    latest call first): the text on record for [U] is the text of the
    earliest call for a uid equal to [U] since the last [Invalidate]. *)
Fixpoint recorded `{D : UidData} (past : list Op) (U : ShaderUid) : option string :=
  match past with
  | [] => None
  | OpInvalidate :: _ => None
  | OpAdd T V _ _ :: past' =>
      match recorded past' U with
      | Some old => Some old
      | None => if operator_eq V U then Some (c_str T) else None
      end
  end.

(** A call that finds another text on record for its uid. *)
Record Mismatch := {
  mm_old : string;
  mm_new : string;
  mm_uid : ShaderUid;
  mm_type : string;
  mm_prefix : string
}.

(** The mismatch call [o] is, if it is one, after the calls [past]. *)
Definition mismatch_of `{D : UidData} (past : list Op) (o : Op) : list Mismatch :=
  match o with
  | OpAdd T U ty pre =>
      match recorded past U with
      | Some old =>
          if decide (old = c_str T) then []
          else [{| mm_old := old; mm_new := T; mm_uid := U; mm_type := ty; mm_prefix := pre |}]
      | None => []
      end
  | OpInvalidate => []
  end.

(** The mismatches among the calls [ops] that follow [past], oldest
    first. *)
Fixpoint mismatches `{D : UidData} (past ops : list Op) : list Mismatch :=
  match ops with
  | [] => []
  | o :: ops' => mismatch_of past o ++ mismatches (o :: past) ops'
  end.

(** The file and the log line of the mismatch number [k], counted from
    0 since start-up. *)
Definition mismatch_file `{D : UidData} `{H : Host} (k : nat) (m : Mismatch)
    : string * string :=
  (dump_path (mm_prefix m) (Z.of_nat k + 1),
   "Old shader code:" +:+ nl +:+ mm_old m +:+ nl +:+ nl
     +:+ "New shader code:" +:+ nl +:+ c_str (mm_new m) +:+ nl +:+ nl
     +:+ "Shader uid:" +:+ nl
     +:+ cat (group_text (mm_uid m) <$> seq 0 group_count)).

Definition mismatch_log `{H : Host} (k : nat) (m : Mismatch) : string :=
  c_str (mm_type m) +:+ " shader uid mismatch! See "
    +:+ dump_path (mm_prefix m) (Z.of_nat k + 1) +:+ " for details".

(** The checker [c] holds what the history [past] has on record. *)
Definition agrees `{D : UidData} (past : list Op) (c : UidChecker) : Prop :=
  ∀ U, m_shaders c !! meaningful U = recorded past U ∧
       (uid_is_indexed c U = true ↔ is_Some (recorded past U)).

(** The range of a C [int]. *)
Definition INT_MIN : Z := - 2 ^ 31.
Definition INT_MAX : Z := 2 ^ 31 - 1.

(** The 32-bit word made of four bytes, lowest first. *)
Definition le32 (b0 b1 b2 b3 : byte) : Z :=
  Z.of_N (Byte.to_N b0) + 2 ^ 8 * Z.of_N (Byte.to_N b1)
    + 2 ^ 16 * Z.of_N (Byte.to_N b2) + 2 ^ 24 * Z.of_N (Byte.to_N b3).

(** [ShaderCode]: [buf] and [write_ptr] point into the memory the
    caller's buffer lies in (an offset into it), or are NULL ([None]). *)
Record ShaderCode := {
  buf : option nat;
  write_ptr : option nat
}.

(** What the generators need of the object they are given:
    [object.Write(fmt, ...)], with [out] the formatted text, acting on the
    object and on memory.  [None] stands for undefined behaviour. *)
Class ShaderGenerator (T : Type) := Write :
  string → T → list ascii → option (T * list ascii).

Module ShaderGenCommon.

Definition ShaderCode_new : ShaderCode := {| buf := None; write_ptr := None |}.

(** [write_ptr += vsprintf(write_ptr, fmt, arglist)]; through a NULL
    [write_ptr] this is undefined. *)
Definition ShaderCode_Write (out : string) (c : ShaderCode) (mem : list ascii)
    : option (ShaderCode * list ascii) :=
  match write_ptr c with
  | Some w =>
      Some ({| buf := buf c; write_ptr := Some (w + String.length out)%nat |},
            sprintf mem w out)
  | None => None
  end.

Definition GetBuffer (c : ShaderCode) : option nat := buf c.

Definition SetBuffer (buffer : option nat) (c : ShaderCode) : ShaderCode :=
  {| buf := buffer; write_ptr := buffer |}.

(** [write_ptr - buf]; the two are NULL together or point into the same
    buffer. *)
Definition BufferSize (c : ShaderCode) : Z :=
  match write_ptr c, buf c with
  | Some w, Some b => Z.of_nat w - Z.of_nat b
  | _, _ => 0
  end.

#[global] Instance ShaderCode_generator : ShaderGenerator ShaderCode := ShaderCode_Write.

(** A [ShaderUid] keeps the [Write] of [ShaderGeneratorInterface], which
    does nothing. *)
#[global] Instance ShaderUid_generator : ShaderGenerator ShaderUid :=
  λ _ u mem, Some (u, mem).

(** Several [Write]s in a row. *)
Fixpoint Write_all {T} `{ShaderGenerator T} (outs : list string) (object : T)
    (mem : list ascii) : option (T * list ascii) :=
  match outs with
  | [] => Some (object, mem)
  | out :: outs' =>
      r ← Write out object mem; Write_all outs' (fst r) (snd r)
  end.

Section templates.
(** [API_TYPE] and its enumerator [API_OPENGL] are declared in
    VideoCommon.h. *)
Context {API_TYPE : Type} `{EqDecision API_TYPE} (API_OPENGL : API_TYPE).
Context {T : Type} `{ShaderGenerator T}.

Definition WriteRegister (api_type : API_TYPE) (object : T) (prefix : string) (num : Z)
    (mem : list ascii) : option (T * list ascii) :=
  if decide (api_type = API_OPENGL) then Some (object, mem) (* Nothing to do here *)
  else Write (" : register(" +:+ c_str prefix +:+ fmt_d_u32 num +:+ ")") object mem.

Definition WriteLocation (api_type : API_TYPE) (object : T)
    (mem : list ascii) : option (T * list ascii) :=
  if decide (api_type = API_OPENGL) then Some (object, mem)
  else Write "uniform " object mem.

Definition DeclareUniform (api_type : API_TYPE) (object : T) (num : Z)
    (type name : string) (mem : list ascii) : option (T * list ascii) :=
  r ← WriteLocation api_type object mem;
  r ← Write (c_str type +:+ " " +:+ c_str name +:+ " ") (fst r) (snd r);
  r ← WriteRegister api_type (fst r) "c" num (snd r);
  (Write (";" +:+ nl) (fst r) (snd r)).
End templates.

(** The text [DeclareUniform] writes for one uniform. *)
Definition uniform_declaration (opengl : bool) (num : Z) (type name : string) : string :=
  (if opengl then "" else "uniform ") +:+ c_str type +:+ " " +:+ c_str name +:+ " "
    +:+ (if opengl then "" else " : register(c" +:+ fmt_d_u32 num +:+ ")")
    +:+ ";" +:+ nl.

End ShaderGenCommon.

(** ** More of TextureConversionShader.cpp *)

(** [s] holds no NUL. *)
Definition nul_free (s : string) : bool :=
  forallb (λ c, negb (Ascii.eqb c NUL)) (list_ascii_of_string s).

(** [m] makes [WRITE]s of NUL-free texts only. *)
Definition CleanWrites {A} (m : M A) : Prop :=
  ∀ e, ∃ ws,
    Forall (λ w, nul_free w = true) ws ∧
    p (snd (m e)) = (p e + total_length ws)%nat ∧
    text (snd (m e)) = sprintf_all (text e) (p e) ws.

(** [m] makes [WRITE]s of NUL-free texts only, the last one the closing
    line of [WriteEncoderEnd]. *)
Definition EndsClean {A} (m : M A) : Prop :=
  ∀ e, ∃ ws,
    Forall (λ w, nul_free w = true) ws ∧
    p (snd (m e)) = (p e + total_length (ws ++ [ln "}"]))%nat ∧
    text (snd (m e)) = sprintf_all (text e) (p e) (ws ++ [ln "}"]).

(** An instance in which the RGB5A3 shader has [sizeof(text) - 1]
    characters. *)
Definition long_video : VideoCommon :=
  {| format_of_u32 := format_of_u32 (VideoCommon := sample_video);
     TexDecoder_GetBlockWidthInTexels :=
       TexDecoder_GetBlockWidthInTexels (VideoCommon := sample_video);
     TexDecoder_GetBlockHeightInTexels :=
       TexDecoder_GetBlockHeightInTexels (VideoCommon := sample_video);
     GetEncodedSampleCount := GetEncodedSampleCount (VideoCommon := sample_video);
     I_COLORS := fill_string 1581 "c";
     C_COLORS := 100000 |}.

Import TextureConversionShaderDX.

(** * Properties *)

(** ** Comparison and formatting *)

Lemma lex_cmp_refl a : lex_cmp a a = 0.
Proof. induction a as [|x a IH]; simpl; [done|]. by rewrite N.ltb_irrefl. Qed.

Lemma lex_cmp_eq a b : lex_cmp a b = 0 ↔ a = b.
Proof.
  split; [|intros ->; apply lex_cmp_refl].
  revert b; induction a as [|x a IH]; intros [|y b]; simpl; try done.
  destruct (N.ltb_spec x y); [done|].
  destruct (N.ltb_spec y x); [done|].
  intros ?%IH. f_equal; [lia|done].
Qed.

Lemma lex_cmp_antisym a b : lex_cmp a b < 0 ↔ 0 < lex_cmp b a.
Proof.
  revert b; induction a as [|x a IH]; intros [|y b]; simpl; try lia.
  destruct (N.ltb_spec x y), (N.ltb_spec y x); try lia. apply IH.
Qed.

#[local] Instance byte_to_N_inj : Inj (=) (=) Byte.to_N.
Proof.
  intros x y Hxy. apply (inj Some). by rewrite <-!Byte.of_to_N, Hxy.
Qed.

#[local] Instance N_of_ascii_inj : Inj (=) (=) N_of_ascii.
Proof.
  intros x y Hxy. by rewrite <-(ascii_N_embedding x), <-(ascii_N_embedding y), Hxy.
Qed.

#[local] Instance list_ascii_of_string_inj : Inj (=) (=) list_ascii_of_string.
Proof.
  intros x y Hxy.
  by rewrite <-(string_of_list_ascii_of_string x),
    <-(string_of_list_ascii_of_string y), Hxy.
Qed.

Lemma memcmp_eq a b : memcmp a b = 0 ↔ a = b.
Proof.
  unfold memcmp. rewrite lex_cmp_eq. split; [|by intros ->].
  apply (inj (fmap Byte.to_N)).
Qed.

Lemma strcmp_eq a b : strcmp a b = 0 ↔ c_str a = c_str b.
Proof.
  unfold strcmp. rewrite lex_cmp_eq. split; [|by intros ->].
  intros Hab. by apply (inj list_ascii_of_string), (inj (fmap N_of_ascii)).
Qed.

Lemma c_str_idemp s : c_str (c_str s) = c_str s.
Proof.
  induction s as [|c s IH]; simpl; [done|].
  destruct (Ascii.eqb c NUL) eqn:Hc; simpl; [done|]. by rewrite Hc, IH.
Qed.

Lemma app_cons_s x (a b : string) : String x a +:+ b = String x (a +:+ b).
Proof. reflexivity. Qed.

Lemma app_assoc_s (a b c : string) : (a +:+ b) +:+ c = a +:+ b +:+ c.
Proof. induction a as [|x a IH]; [done|]. rewrite !app_cons_s. by f_equal. Qed.

Lemma app_nil_r_s (a : string) : a +:+ "" = a.
Proof. induction a as [|x a IH]; [done|]. rewrite app_cons_s. by f_equal. Qed.

Lemma length_app_s (a b : string) :
  String.length (a +:+ b) = (String.length a + String.length b)%nat.
Proof. induction a as [|x a IH]; [done|]. rewrite app_cons_s. simpl. by f_equal. Qed.

Lemma length_fill_string n c : String.length (fill_string n c) = n.
Proof. induction n as [|n IH]; simpl; [done|]. by rewrite IH. Qed.

Lemma length_setw w c s :
  (String.length s ≤ w)%nat → String.length (setw w c s) = w.
Proof. intros ?. unfold setw. rewrite length_app_s, length_fill_string. lia. Qed.

(** ** ShaderUid *)

Section ShaderUid_facts.
Context `{D : UidData} `{H : Host}.

Lemma operator_eq_iff a b : operator_eq a b = true ↔ meaningful a = meaningful b.
Proof. unfold operator_eq. rewrite Z.eqb_eq. apply memcmp_eq. Qed.

Lemma operator_ne_negb a b : operator_ne a b = negb (operator_eq a b).
Proof. reflexivity. Qed.

(** [std::map] treats two keys as the same when neither is less than
    the other: that is equality of the meaningful ranges. *)
Lemma operator_lt_equiv a b :
  operator_lt a b = false ∧ operator_lt b a = false ↔ meaningful a = meaningful b.
Proof.
  unfold operator_lt, memcmp. rewrite !Z.ltb_ge, <-memcmp_eq. unfold memcmp.
  pose proof (lex_cmp_antisym (Byte.to_N <$> meaningful a) (Byte.to_N <$> meaningful b)).
  pose proof (lex_cmp_antisym (Byte.to_N <$> meaningful b) (Byte.to_N <$> meaningful a)).
  split; [lia|]. intros Heq. rewrite Heq in *. lia.
Qed.

Lemma operator_lt_irrefl a : operator_lt a a = false.
Proof. unfold operator_lt, memcmp. by rewrite lex_cmp_refl. Qed.

Lemma meaningful_lookup u j :
  meaningful u !! j = if decide (j < NumValues)%nat then values u !! (StartValue + j)%nat else None.
Proof.
  unfold meaningful. case_decide.
  - by rewrite lookup_take_lt, lookup_drop.
  - apply lookup_take_ge. lia.
Qed.

(** Bytes outside the meaningful range do not enter [meaningful]. *)
Lemma meaningful_ext u v :
  (∀ i, StartValue ≤ i < StartValue + NumValues → values u !! i = values v !! i)%nat →
  meaningful u = meaningful v.
Proof.
  intros Hrange. apply list_eq. intros j. rewrite !meaningful_lookup.
  case_decide; [|done]. apply Hrange. lia.
Qed.

Lemma ClearUID_values u :
  length (values (ClearUID u)) = sizeof_uid_data ∧
  Forall (λ b, b = Byte.x00) (values (ClearUID u)).
Proof.
  simpl. split; [apply length_replicate|].
  apply Forall_forall. by intros b [-> _]%elem_of_replicate.
Qed.
End ShaderUid_facts.

Section ShaderUid_claims.
Context `{D : UidData} `{H : Host}.

(** C3, as the code has it: [ClearUID] zeroes every byte of the record
    and leaves [HASH] as it was.  The next [CalculateUIDHash] hashes the
    cleared bytes only when that [HASH] is 0 (nothing cached); otherwise
    it makes no call to [HashAdler32] and the old value stays. *)
Theorem ClearUID_keeps_HASH (u : ShaderUid) :
  length (values (ClearUID u)) = sizeof_uid_data ∧
  Forall (λ b, b = Byte.x00) (values (ClearUID u)) ∧
  HASH (ClearUID u) = HASH u ∧
  CalculateUIDHash (ClearUID u) =
    if HASH u =? 0
    then ([meaningful (ClearUID u)],
          {| values := values (ClearUID u);
             HASH := HashAdler32 (meaningful (ClearUID u)) |})
    else ([], ClearUID u).
Proof.
  destruct (ClearUID_values u) as [Hlen Hzero].
  repeat split; try done.
Qed.

(** C4, as the code has it: two hash computations with no [ClearUID]
    in between give the same [HASH], whatever happened meanwhile to the
    bytes outside the meaningful range; and when the first value is not
    0 the second computation makes no call to [HashAdler32] and leaves
    the uid alone (a value of 0 is computed again). *)
Theorem CalculateUIDHash_twice (u : ShaderUid) (bytes' : list byte) :
  let u1 := snd (CalculateUIDHash u) in
  let u' := {| values := bytes'; HASH := HASH u1 |} in
  (∀ i, StartValue ≤ i < StartValue + NumValues → bytes' !! i = values u !! i)%nat →
  HASH (snd (CalculateUIDHash u')) = HASH u1 ∧
  CalculateUIDHash u' =
    if HASH u1 =? 0
    then ([meaningful u'], {| values := bytes'; HASH := HashAdler32 (meaningful u') |})
    else ([], u').
Proof.
  intros u1 u' Hrange. split; [|done].
  assert (meaningful u' = meaningful u) as Hm by (by apply meaningful_ext).
  unfold CalculateUIDHash at 1. simpl.
  destruct (HASH u1 =? 0) eqn:Hz; [|done]. simpl.
  apply Z.eqb_eq in Hz. rewrite Hz, Hm.
  subst u1. unfold CalculateUIDHash in Hz |- *.
  destruct (HASH u =? 0) eqn:Hu; simpl in *; [done|].
  apply Z.eqb_neq in Hu. done.
Qed.
End ShaderUid_claims.

(** C3 fails as stated: a hash computed before [ClearUID] survives it,
    and the next request returns it without hashing the cleared bytes. *)
Lemma ClearUID_stale_hash :
  let u1 := snd (CalculateUIDHash (D := uid5) (H := host0) uid5_a) in
  let u2 := ClearUID (D := uid5) u1 in
  HASH u1 = 1572875 ∧
  CalculateUIDHash (D := uid5) (H := host0) u2 = ([], u2) ∧
  HASH (snd (CalculateUIDHash (D := uid5) (H := host0) u2))
    ≠ HashAdler32 (Host := host0) (meaningful (D := uid5) u2).
Proof. vm_compute. repeat split; [reflexivity..|discriminate]. Qed.

Lemma CalculateUIDHash_twice_witness :
  let u1 := snd (CalculateUIDHash (D := uid5) (H := host0) uid5_a) in
  let u' := {| values := bytes_of [7; 1; 2; 3; 4]%N; HASH := HASH u1 |} in
  HASH (snd (CalculateUIDHash (D := uid5) (H := host0) u')) = HASH u1 ∧
  CalculateUIDHash (D := uid5) (H := host0) u' =
    if HASH u1 =? 0
    then ([meaningful (D := uid5) u'],
          {| values := bytes_of [7; 1; 2; 3; 4]%N;
             HASH := HashAdler32 (Host := host0) (meaningful (D := uid5) u') |})
    else ([], u').
Proof.
  apply (CalculateUIDHash_twice (D := uid5) (H := host0) uid5_a
           (bytes_of [7; 1; 2; 3; 4]%N)).
  intros i Hi. simpl in Hi.
  destruct i as [|[|[|[|[|i]]]]]; [lia|reflexivity..|lia].
Defined.

(** C4 fails as stated where the checksum is 0: the second request
    hashes the record again. *)
Lemma CalculateUIDHash_zero_recomputed :
  let u1 := snd (CalculateUIDHash (D := uid264) (H := host0) uid264_zero) in
  HASH u1 = 0 ∧
  fst (CalculateUIDHash (D := uid264) (H := host0) u1)
    = [meaningful (D := uid264) u1] ∧
  fst (CalculateUIDHash (D := uid264) (H := host0) u1) ≠ [].
Proof. vm_compute. repeat split; [reflexivity..|discriminate]. Qed.

(** ** UidChecker *)

Section UidChecker_facts.
Context `{D : UidData} `{H : Host}.

Lemma uid_is_indexed_iff c u :
  uid_is_indexed c u = true ↔ meaningful u ∈ meaningful <$> m_uids c.
Proof.
  unfold uid_is_indexed. induction (m_uids c) as [|v l IH]; simpl.
  - split; [done|]. by intros ?%elem_of_nil.
  - rewrite orb_true_iff, IH, operator_eq_iff, elem_of_cons.
    split; (intros [Heq|Hin]; [left|right]); done.
Qed.

Lemma uid_not_indexed_iff c u :
  uid_is_indexed c u = false ↔ meaningful u ∉ meaningful <$> m_uids c.
Proof. rewrite <-uid_is_indexed_iff. by destruct (uid_is_indexed c u). Qed.

Lemma uid_count_not_indexed c u : uid_is_indexed c u = false → uid_count c u = 0%nat.
Proof.
  unfold uid_is_indexed, uid_count. induction (m_uids c) as [|v l IH]; simpl; [done|].
  intros [Hv Hl]%orb_false_iff. rewrite Hv. auto.
Qed.

Lemma checker_inv_new : checker_inv UidChecker_new.
Proof. split; simpl; [constructor|]. by rewrite dom_empty_L. Qed.

Lemma checker_inv_Invalidate c : checker_inv (Invalidate c).
Proof. apply checker_inv_new. Qed.

Lemma checker_inv_Add new_code new_uid shader_type dump_prefix st :
  checker_inv (fst st) →
  checker_inv (fst (AddToIndexAndCheck new_code new_uid shader_type dump_prefix st)).
Proof.
  intros [Hnd Hdom]. unfold AddToIndexAndCheck.
  destruct (uid_is_indexed (fst st) new_uid) eqn:Hidx; simpl.
  - assert (meaningful new_uid ∈ dom (m_shaders (fst st))) as Hin.
    { rewrite Hdom, elem_of_list_to_set. by apply uid_is_indexed_iff. }
    apply elem_of_dom in Hin as [old Hold].
    assert (checker_inv
      {| m_shaders := <[meaningful new_uid := default "" (m_shaders (fst st) !! meaningful new_uid)]>
                        (m_shaders (fst st));
         m_uids := m_uids (fst st) |}).
    { rewrite Hold. simpl. rewrite insert_id by done. by split. }
    by destruct (negb _).
  - apply uid_not_indexed_iff in Hidx. split; simpl.
    + rewrite fmap_app. simpl. apply NoDup_app. split_and!; [done| |apply NoDup_singleton].
      intros x Hx ->%list_elem_of_singleton. done.
    + rewrite dom_insert_L, Hdom, fmap_app, list_to_set_app_L. simpl.
      rewrite (right_id_L ∅ (∪)). apply (comm_L (∪)).
Qed.

Lemma checker_inv_run_op st o : checker_inv (fst st) → checker_inv (fst (run_op st o)).
Proof.
  destruct o; simpl; [apply checker_inv_Add|intros _; apply checker_inv_Invalidate].
Qed.

Lemma checker_inv_fold ops st :
  checker_inv (fst st) → checker_inv (fst (fold_left run_op ops st)).
Proof.
  revert st. induction ops as [|o ops IH]; intros st Hst; simpl; [done|].
  by apply IH, checker_inv_run_op.
Qed.
End UidChecker_facts.

Section UidChecker_claims.
Context `{D : UidData} `{H : Host}.

(** C10: after any sequence of [AddToIndexAndCheck] and [Invalidate]
    calls on a new checker, no uid occurs twice in [m_uids] (uids
    compared on their meaningful bytes, as [operator==] does), the keys
    of [m_shaders] are exactly the uids of [m_uids], and [Invalidate]
    empties both. *)
Theorem UidChecker_invariant (ops : list Op) :
  let c := fst (run_ops ops) in
  NoDup (meaningful <$> m_uids c) ∧
  dom (m_shaders c) = list_to_set (meaningful <$> m_uids c) ∧
  (∀ u, (uid_count c u ≤ 1)%nat) ∧
  m_uids (Invalidate c) = [] ∧ m_shaders (Invalidate c) = ∅.
Proof.
  intros c.
  destruct (checker_inv_fold ops (UidChecker_new, Diagnostics_new) checker_inv_new)
    as [Hnd Hdom].
  fold (run_ops ops) in Hnd, Hdom. fold c in Hnd, Hdom.
  split_and!; try done.
  intros u. unfold uid_count. clear Hdom.
  induction (m_uids c) as [|v l IH]; simpl; [lia|].
  apply NoDup_cons in Hnd as [Hv Hl]. specialize (IH Hl).
  destruct (operator_eq v u) eqn:Hvu; simpl; [|lia].
  apply operator_eq_iff in Hvu. rewrite Hvu in Hv.
  assert (uid_is_indexed {| m_shaders := ∅; m_uids := l |} u = false) as Hnot
    by (by apply uid_not_indexed_iff).
  apply uid_count_not_indexed in Hnot. unfold uid_count in Hnot. simpl in Hnot.
  lia.
Qed.

(** C5, as the code has it: after [AddToIndexAndCheck] with uid [U] and
    text [T] the map holds, for [U], the text recorded when [U] was
    first indexed: [T] if [U] was new, and otherwise the text already
    stored, which a mismatch does not replace. *)
Theorem AddToIndexAndCheck_stored (T : string) (U : ShaderUid)
    (shader_type dump_prefix : string) (st : UidChecker * Diagnostics) :
  m_shaders (fst (AddToIndexAndCheck T U shader_type dump_prefix st)) !! meaningful U =
    Some (if uid_is_indexed (fst st) U
          then default "" (m_shaders (fst st) !! meaningful U)
          else c_str T).
Proof.
  unfold AddToIndexAndCheck.
  destruct (uid_is_indexed (fst st) U); simpl.
  - destruct (negb _); simpl; apply lookup_insert_eq.
  - apply lookup_insert_eq.
Qed.

(** C2: on a checker that has not indexed [U] yet, two calls with the
    same uid [U] and the same text [T] write no dump file (nothing
    outside the checker changes), leave [U] exactly once in [m_uids],
    and leave [m_shaders] with the one text [T] for [U]. *)
Theorem AddToIndexAndCheck_twice_same (T : string) (U : ShaderUid)
    (ty1 pre1 ty2 pre2 : string) (st : UidChecker * Diagnostics) :
  uid_is_indexed (fst st) U = false →
  let st2 := AddToIndexAndCheck T U ty2 pre2 (AddToIndexAndCheck T U ty1 pre1 st) in
  snd st2 = snd st ∧
  files (snd st2) = files (snd st) ∧
  uid_count (fst st2) U = 1%nat ∧
  m_uids (fst st2) = (m_uids (fst st) ++ [U])%list ∧
  m_shaders (fst st2) !! meaningful U = Some (c_str T).
Proof.
  intros Hnew st2. subst st2.
  assert (AddToIndexAndCheck T U ty1 pre1 st =
    ({| m_shaders := <[meaningful U := c_str T]> (m_shaders (fst st));
        m_uids := m_uids (fst st) ++ [U] |}, snd st)) as ->.
  { unfold AddToIndexAndCheck. by rewrite Hnew. }
  unfold AddToIndexAndCheck. simpl.
  assert (uid_is_indexed
    {| m_shaders := <[meaningful U := c_str T]> (m_shaders (fst st));
       m_uids := m_uids (fst st) ++ [U] |} U = true) as ->.
  { apply uid_is_indexed_iff. simpl. rewrite fmap_app. set_solver. }
  simpl. rewrite lookup_insert_eq. simpl.
  assert (strcmp (c_str T) T = 0) as ->.
  { apply strcmp_eq, c_str_idemp. }
  simpl. split_and!; try done.
  - unfold uid_count. simpl. rewrite List.filter_app, length_app. simpl.
    assert (operator_eq U U = true) as -> by (by apply operator_eq_iff).
    apply uid_count_not_indexed in Hnew. unfold uid_count in Hnew.
    simpl. lia.
  - apply lookup_insert_eq.
Qed.
End UidChecker_claims.

Lemma AddToIndexAndCheck_twice_same_witness :
  let st2 := AddToIndexAndCheck (D := uid5) (H := host0) "void main() {}" uid5_a "Pixel" "ps_"
               (AddToIndexAndCheck (D := uid5) (H := host0) "void main() {}" uid5_a "Pixel" "ps_"
                  (UidChecker_new, Diagnostics_new)) in
  snd st2 = Diagnostics_new ∧
  files (snd st2) = [] ∧
  uid_count (D := uid5) (fst st2) uid5_a = 1%nat ∧
  m_uids (fst st2) = [uid5_a] ∧
  m_shaders (fst st2) !! meaningful (D := uid5) uid5_a = Some "void main() {}".
Proof.
  apply (AddToIndexAndCheck_twice_same (D := uid5) (H := host0)
           "void main() {}" uid5_a "Pixel" "ps_" "Pixel" "ps_"
           (UidChecker_new, Diagnostics_new)).
  reflexivity.
Defined.

(** C5 fails as stated: after a mismatch the map still holds the text
    stored first, not the text of the last call. *)
Lemma AddToIndexAndCheck_keeps_old_text :
  let st2 := AddToIndexAndCheck (D := uid5) (H := host0) "new" uid5_a "Pixel" "ps_"
               (AddToIndexAndCheck (D := uid5) (H := host0) "old" uid5_a "Pixel" "ps_"
                  (UidChecker_new, Diagnostics_new)) in
  m_shaders (fst st2) !! meaningful (D := uid5) uid5_a = Some "old" ∧
  m_shaders (fst st2) !! meaningful (D := uid5) uid5_a ≠ Some "new".
Proof. vm_compute. split; [reflexivity|discriminate]. Qed.

Lemma cat_app (l1 l2 : list string) : cat (l1 ++ l2) = cat l1 +:+ cat l2.
Proof.
  induction l1 as [|x l1 IH]; simpl; [done|]. by rewrite IH, app_assoc_s.
Qed.

Lemma hex_go_length fuel n acc (k : nat) :
  0 ≤ n < 16 ^ Z.of_nat k →
  (String.length (hex_go fuel n acc) ≤ k + String.length acc)%nat.
Proof.
  revert n acc k. induction fuel as [|fuel IH]; intros n acc k Hn; simpl; [lia|].
  destruct (Z.leb_spec n 0); [lia|].
  destruct k as [|k]; [simpl in Hn; lia|].
  assert (0 ≤ n / 16 < 16 ^ Z.of_nat k) as Hdiv.
  { split; [apply Z.div_pos; lia|].
    apply Z.div_lt_upper_bound; [lia|].
    replace (Z.of_nat (S k)) with (Z.succ (Z.of_nat k)) in Hn by lia.
    rewrite Z.pow_succ_r in Hn by lia. lia. }
  specialize (IH (n / 16) (String (hex_digit (n mod 16)) acc) k Hdiv).
  simpl in IH. lia.
Qed.

Lemma hex_length n (k : nat) :
  (1 ≤ k)%nat → 0 ≤ n < 16 ^ Z.of_nat k → (String.length (hex n) ≤ k)%nat.
Proof.
  intros Hk Hn. unfold hex. destruct (Z.leb_spec n 0); [simpl; lia|].
  pose proof (hex_go_length (Z.to_nat (Z.log2 n) + 1) n "" k Hn) as Hlen.
  simpl in Hlen. lia.
Qed.

(** A 32-bit word under [setw(8)], [setfill('0')] and [hex] is eight
    characters: its digits, with zeros in front. *)
Lemma word_hex_length v :
  0 ≤ v < 2 ^ 32 →
  String.length (setw 8 "0" (hex v)) = 8%nat ∧
  setw 8 "0" (hex v) = fill_string (8 - String.length (hex v)) "0" +:+ hex v.
Proof.
  intros Hv. split; [|done]. apply length_setw, hex_length; [lia|].
  by replace (16 ^ Z.of_nat 8) with (2 ^ 32) by reflexivity.
Qed.

Section dump_facts.
Context `{D : UidData} `{H : Host}.

Lemma raw_u32_range u i : 0 ≤ raw_u32 u i < 2 ^ 32.
Proof.
  unfold raw_u32.
  pose proof (Byte.to_N_bounded (raw_byte u (4 * i + 0))).
  pose proof (Byte.to_N_bounded (raw_byte u (4 * i + 1))).
  pose proof (Byte.to_N_bounded (raw_byte u (4 * i + 2))).
  pose proof (Byte.to_N_bounded (raw_byte u (4 * i + 3))).
  lia.
Qed.

Lemma dump_uid_step_app u file i :
  dump_uid_step u file i = file +:+ dump_uid_step u "" i.
Proof.
  unfold dump_uid_step.
  destruct (i mod 4 =? 0)%nat, (i mod 4 <? 3)%nat; simpl;
    by rewrite ?app_assoc_s.
Qed.

Lemma dump_uid_fold u l file :
  fold_left (dump_uid_step u) l file = file +:+ cat (dump_uid_step u "" <$> l).
Proof.
  revert file. induction l as [|i l IH]; intros file; simpl.
  - by rewrite app_nil_r_s.
  - by rewrite IH, dump_uid_step_app, app_assoc_s.
Qed.

Lemma dump_uid_step_at u k j :
  (j < 4)%nat →
  dump_uid_step u "" (4 * k + j) =
    (if (j =? 0)%nat then group_header k else "") +:+ word_text j (raw_u32 u (4 * k + j)).
Proof.
  intros Hj.
  assert ((4 * k + j) mod 4 = j)%nat as Hmod
    by (rewrite Nat.add_comm, Nat.mul_comm, Nat.Div0.mod_add, Nat.mod_small; lia).
  destruct j as [|[|[|[|j]]]]; [|unfold dump_uid_step; rewrite Hmod; done..|lia].
  replace (4 * k + 0)%nat with (4 * k)%nat in * by lia.
  unfold dump_uid_step, word_text, group_header, GetUidDataSize. rewrite Hmod.
  change (0 =? 0)%nat with true. change (0 <? 3)%nat with true. cbv iota.
  by rewrite !app_assoc_s.
Qed.
End dump_facts.

Lemma imap_fmap_seq {A B} (f : nat → A → B) (g : nat → A) i n :
  imap (λ j, f (i + j)%nat) (g <$> seq i n) = (λ j, f j (g j)) <$> seq i n.
Proof.
  revert i f. induction n as [|n IH]; intros i f; [done|].
  cbn [seq fmap list_fmap]. rewrite imap_cons. f_equal.
  - by rewrite Nat.add_0_r.
  - rewrite <-(IH (S i) f). apply imap_ext. intros j x _. simpl. f_equal. lia.
Qed.

Section dump_groups.
Context `{D : UidData} `{H : Host}.

Lemma group_size_le k : (group_size k ≤ 4)%nat.
Proof. unfold group_size. lia. Qed.

Lemma group_size_full k :
  (4 * k + 4 ≤ sizeof_uid_data)%nat → group_size k = 4%nat.
Proof. unfold group_size. lia. Qed.

Lemma group_size_last k :
  (4 * k < sizeof_uid_data < 4 * k + 4)%nat →
  group_size k = (sizeof_uid_data - 4 * k)%nat.
Proof. unfold group_size. lia. Qed.

Lemma group_count_spec :
  (4 * group_count - 3 ≤ sizeof_uid_data + 0 ≤ 4 * group_count)%nat.
Proof.
  unfold group_count.
  pose proof (Nat.div_mod_eq (sizeof_uid_data + 3) 4).
  pose proof (Nat.mod_upper_bound (sizeof_uid_data + 3) 4). lia.
Qed.

Lemma length_group_words u k : length (group_words u k) = group_size k.
Proof. unfold group_words. by rewrite length_fmap, length_seq. Qed.

(** The turns of the loop that make up group [k]. *)
Lemma group_text_steps u k :
  (1 ≤ group_size k)%nat →
  cat (dump_uid_step u "" <$> seq (4 * k) (group_size k)) = group_text u k.
Proof.
  intros Hk. pose proof (group_size_le k) as Hle.
  unfold group_text, group_words.
  rewrite (imap_fmap_seq word_text (λ j, raw_u32 u (4 * k + j)) 0).
  assert (seq (4 * k) (group_size k) = Nat.add (4 * k) <$> seq 0 (group_size k)) as ->
    by (rewrite fmap_add_seq; f_equal; lia).
  rewrite <-list_fmap_compose.
  destruct (group_size k) as [|n]; [lia|].
  cbn [seq fmap list_fmap cat foldr]. unfold compose at 1.
  rewrite (dump_uid_step_at u k 0) by lia.
  change (0 =? 0)%nat with true. cbv iota. rewrite app_assoc_s. do 2 f_equal.
  change (foldr String.append "") with cat. f_equal.
  apply Forall_fmap_ext_1, Forall_seq. intros j Hj. unfold compose.
  rewrite dump_uid_step_at by lia.
  destruct j; [lia|done].
Qed.

(** The loop, cut into groups of four turns. *)
Lemma dump_uid_chunks u g : ∀ k n,
  ((n + 3) / 4 = g)%nat → (4 * k + n = sizeof_uid_data)%nat →
  cat (dump_uid_step u "" <$> seq (4 * k) n) = cat (group_text u <$> seq k g).
Proof.
  induction g as [|g IH]; intros k n Hg Hn.
  - assert (n = 0%nat) as ->; [|done].
    pose proof (Nat.div_mod_eq (n + 3) 4).
    pose proof (Nat.mod_upper_bound (n + 3) 4). lia.
  - assert (1 ≤ n)%nat as Hn1.
    { destruct n; [|lia]. by vm_compute in Hg. }
    assert (group_size k = Nat.min 4 n) as Hsize by (unfold group_size; lia).
    assert (n = (group_size k + (n - group_size k))%nat) as Hsplit by lia.
    rewrite Hsplit at 1. rewrite seq_app, fmap_app, cat_app.
    rewrite group_text_steps by lia.
    cbn [seq fmap list_fmap cat foldr]. f_equal.
    change (foldr String.append "") with cat.
    replace (4 * k + group_size k)%nat with (4 * k + Nat.min 4 n)%nat by lia.
    destruct (decide (n ≤ 4)%nat) as [Hsmall|Hbig].
    + replace (n - group_size k)%nat with 0%nat by lia.
      assert (g = 0%nat) as ->; [|done].
      pose proof (Nat.div_mod_eq (n + 3) 4).
      pose proof (Nat.mod_upper_bound (n + 3) 4). lia.
    + replace (4 * k + Nat.min 4 n)%nat with (4 * S k)%nat by lia.
      apply IH; [|lia].
      replace (n + 3)%nat with ((n - group_size k + 3) + 1 * 4)%nat in Hg by lia.
      rewrite Nat.div_add in Hg by lia. lia.
Qed.

(** What the dump loop appends: the groups, in order. *)
Lemma dump_uid_groups u file :
  dump_uid u file = file +:+ cat (group_text u <$> seq 0 group_count).
Proof.
  unfold dump_uid, GetUidDataSize. rewrite dump_uid_fold. f_equal.
  apply (dump_uid_chunks u group_count 0 sizeof_uid_data); [done|lia].
Qed.
End dump_groups.

Section UidChecker_dump.
Context `{D : UidData} `{H : Host}.

(** C1, as the code has it: on a checker that has not indexed [U] yet,
    a call with text [T1] and then one with a different text [T2]
    write exactly one dump file.  It holds the old text [T1], the new
    text [T2] verbatim under 'New shader code:', and the uid as
    [ceil(GetUidDataSize() / 4)] groups of 32-bit words, each word as
    eight hex digits with zeros in front: four words in every group
    that fits below [GetUidDataSize()] words, and the remaining one to
    three words in a last group when [GetUidDataSize()] is not a
    multiple of 4. *)
Theorem AddToIndexAndCheck_mismatch_dump (T1 T2 : string) (U : ShaderUid)
    (ty1 pre1 ty2 pre2 : string) (st : UidChecker * Diagnostics) :
  uid_is_indexed (fst st) U = false →
  c_str T1 ≠ c_str T2 →
  let st2 := AddToIndexAndCheck T2 U ty2 pre2 (AddToIndexAndCheck T1 U ty1 pre1 st) in
  let path := user_dump_path +:+ c_str pre2 +:+ "suid_mismatch_"
                +:+ fmt_04i (num_failures (snd st) + 1) +:+ ".txt" in
  files (snd st2) =
    (files (snd st) ++
      [(path,
        "Old shader code:" +:+ nl +:+ c_str T1 +:+ nl +:+ nl
          +:+ "New shader code:" +:+ nl +:+ c_str T2 +:+ nl +:+ nl
          +:+ "Shader uid:" +:+ nl
          +:+ cat (group_text U <$> seq 0 group_count))])%list ∧
  (sizeof_uid_data ≤ 4 * group_count < sizeof_uid_data + 4)%nat ∧
  (∀ k, (k < group_count)%nat →
     length (group_words U k) =
       if decide (4 * k + 4 ≤ sizeof_uid_data)%nat then 4%nat
       else (sizeof_uid_data - 4 * k)%nat) ∧
  (∀ k j v, group_words U k !! j = Some v →
     0 ≤ v < 2 ^ 32 ∧ String.length (setw 8 "0" (hex v)) = 8%nat).
Proof.
  intros Hnew Hdiff st2 path. subst st2 path.
  assert (AddToIndexAndCheck T1 U ty1 pre1 st =
    ({| m_shaders := <[meaningful U := c_str T1]> (m_shaders (fst st));
        m_uids := m_uids (fst st) ++ [U] |}, snd st)) as ->.
  { unfold AddToIndexAndCheck. by rewrite Hnew. }
  split; [|split; [|split]].
  - unfold AddToIndexAndCheck. cbn [fst snd].
    assert (uid_is_indexed
      {| m_shaders := <[meaningful U := c_str T1]> (m_shaders (fst st));
         m_uids := m_uids (fst st) ++ [U] |} U = true) as ->.
    { apply uid_is_indexed_iff. simpl. rewrite fmap_app. set_solver. }
    cbn [negb m_shaders]. rewrite lookup_insert_eq. cbn [default from_option id].
    assert ((strcmp (c_str T1) T2 =? 0) = false) as ->.
    { apply Z.eqb_neq. rewrite strcmp_eq, c_str_idemp. done. }
    cbn [negb snd files]. rewrite dump_uid_groups. by rewrite !app_assoc_s.
  - pose proof group_count_spec. lia.
  - intros k Hk. rewrite length_group_words. pose proof group_count_spec.
    unfold group_size. case_decide; lia.
  - intros k j v Hv. unfold group_words in Hv.
    apply list_lookup_fmap_Some_1 in Hv as (i & -> & _).
    split; [apply raw_u32_range|apply word_hex_length, raw_u32_range].
Qed.
End UidChecker_dump.

Lemma AddToIndexAndCheck_mismatch_dump_witness :
  let st2 := AddToIndexAndCheck (D := uid5) (H := host0) "new" uid5_a "Pixel" "ps_"
               (AddToIndexAndCheck (D := uid5) (H := host0) "old" uid5_a "Pixel" "ps_"
                  (UidChecker_new, Diagnostics_new)) in
  files (snd st2) =
    [("/dump/" +:+ c_str "ps_" +:+ "suid_mismatch_" +:+ fmt_04i (0 + 1) +:+ ".txt",
      "Old shader code:" +:+ nl +:+ c_str "old" +:+ nl +:+ nl
        +:+ "New shader code:" +:+ nl +:+ c_str "new" +:+ nl +:+ nl
        +:+ "Shader uid:" +:+ nl
        +:+ cat (group_text (D := uid5) (H := host0) uid5_a
                   <$> seq 0 (group_count (D := uid5))))] ∧
  (5 ≤ 4 * group_count (D := uid5) < 5 + 4)%nat ∧
  (∀ k, (k < group_count (D := uid5))%nat →
     length (group_words (D := uid5) (H := host0) uid5_a k) =
       if decide (4 * k + 4 ≤ 5)%nat then 4%nat else (5 - 4 * k)%nat) ∧
  (∀ k j v, group_words (D := uid5) (H := host0) uid5_a k !! j = Some v →
     0 ≤ v < 2 ^ 32 ∧ String.length (setw 8 "0" (hex v)) = 8%nat).
Proof.
  apply (AddToIndexAndCheck_mismatch_dump (D := uid5) (H := host0)
           "old" "new" uid5_a "Pixel" "ps_" "Pixel" "ps_"
           (UidChecker_new, Diagnostics_new)).
  - reflexivity.
  - vm_compute. discriminate.
Defined.

(** C1 fails as stated for a record of five bytes: the dump has two
    groups, and the second one holds a single word, not four. *)
Lemma mismatch_dump_short_group :
  let st2 := AddToIndexAndCheck (D := uid5) (H := host0) "new" uid5_a "Pixel" "ps_"
               (AddToIndexAndCheck (D := uid5) (H := host0) "old" uid5_a "Pixel" "ps_"
                  (UidChecker_new, Diagnostics_new)) in
  files (snd st2) =
    [("/dump/ps_suid_mismatch_0001.txt",
      "Old shader code:
old

New shader code:
new

Shader uid:
Values  0 - 3: 03020109 00000004 00000000 00000000
Values  4 - 5: 00000000 ")] ∧
  group_count (D := uid5) = 2%nat ∧
  group_words (D := uid5) (H := host0) uid5_a 1 = [0] ∧
  ¬ (∀ k, (k < group_count (D := uid5))%nat →
       length (group_words (D := uid5) (H := host0) uid5_a k) = 4%nat).
Proof.
  split_and!; [by vm_compute..|].
  intros Hall. specialize (Hall 1%nat). vm_compute in Hall.
  assert (1 = 4)%nat by (apply Hall; lia). lia.
Qed.

(** ** The scratch buffer *)

Lemma list_ascii_of_string_app (a b : string) :
  list_ascii_of_string (a +:+ b) =
    (list_ascii_of_string a ++ list_ascii_of_string b)%list.
Proof.
  induction a as [|x a IH]; [done|]. rewrite app_cons_s. simpl. by f_equal.
Qed.

Lemma length_list_ascii_of_string (a : string) :
  length (list_ascii_of_string a) = String.length a.
Proof. induction a as [|x a IH]; simpl; [done|]. by f_equal. Qed.

Lemma lookup_inserts {A} (l k : list A) (i j : nat) :
  list_inserts i k l !! j =
    if decide ((i ≤ j < i + length k)%nat ∧ (j < length l)%nat) then k !! (j - i)%nat
    else l !! j.
Proof.
  case_decide as Hj.
  - destruct Hj. by apply list_lookup_inserts.
  - destruct (decide (j < length l)%nat) as [Hlen|Hlen].
    + destruct (decide (j < i)%nat); [by apply list_lookup_inserts_lt|].
      apply list_lookup_inserts_ge. lia.
    + rewrite !lookup_ge_None_2; [done|lia|rewrite length_inserts; lia].
Qed.

Lemma inserts_over_insert {A} (l k : list A) (q : nat) (z : A) :
  k ≠ [] → list_inserts q k (<[q := z]> l) = list_inserts q k l.
Proof.
  destruct k as [|y k]; [done|]. intros _. simpl.
  rewrite <-list_insert_inserts_lt by lia. apply list_insert_insert_eq.
Qed.

Lemma length_sprintf t q w : length (sprintf t q w) = length t.
Proof. apply length_inserts. Qed.

(** Two [WRITE]s in a row leave what one [WRITE] of the two texts leaves. *)
Lemma sprintf_sprintf t q w1 w2 :
  sprintf (sprintf t q w1) (q + String.length w1) w2 = sprintf t q (w1 +:+ w2).
Proof.
  unfold sprintf. rewrite list_ascii_of_string_app, <-(assoc_L (++)).
  rewrite (list_inserts_app_l (list_ascii_of_string w1) (list_ascii_of_string w2 ++ [NUL])).
  rewrite (list_inserts_app_l (list_ascii_of_string w1) [NUL]).
  rewrite length_list_ascii_of_string, (Nat.add_comm q).
  cbn [list_inserts].
  apply inserts_over_insert. by destruct (list_ascii_of_string w2).
Qed.


Lemma total_length_app ws1 ws2 :
  total_length (ws1 ++ ws2) = (total_length ws1 + total_length ws2)%nat.
Proof. induction ws1 as [|w ws1 IH]; simpl; [done|]. rewrite IH. lia. Qed.

Lemma sprintf_all_app t q ws1 ws2 :
  sprintf_all t q (ws1 ++ ws2) =
    sprintf_all (sprintf_all t q ws1) (q + total_length ws1) ws2.
Proof.
  revert t q. induction ws1 as [|w ws1 IH]; intros t q; simpl.
  - by rewrite Nat.add_0_r.
  - rewrite IH. f_equal. unfold total_length. simpl. lia.
Qed.

Lemma length_sprintf_all t q ws : length (sprintf_all t q ws) = length t.
Proof.
  revert t q. induction ws as [|w ws IH]; intros t q; simpl; [done|].
  by rewrite IH, length_sprintf.
Qed.

Lemma sprintf_all_cat t q ws :
  ws ≠ [] → sprintf_all t q ws = sprintf t q (cat ws).
Proof.
  revert t q. induction ws as [|w ws IH]; intros t q Hne; [done|]. simpl.
  destruct ws as [|w' ws].
  - simpl. by rewrite app_nil_r_s.
  - rewrite IH by done. apply sprintf_sprintf.
Qed.


(** Writing the same text again over its own result, the canary set
    anew in between, changes nothing. *)
Lemma sprintf_all_again t (c : nat) (x : ascii) ws :
  sprintf_all (<[c := x]> (sprintf_all (<[c := x]> t) 0 ws)) 0 ws =
    sprintf_all (<[c := x]> t) 0 ws.
Proof.
  destruct (decide (ws = [])) as [->|Hne]; [apply list_insert_insert_eq|].
  rewrite !sprintf_all_cat by done. unfold sprintf.
  set (k := (list_ascii_of_string (cat ws) ++ [NUL])%list). set (t' := <[c := x]> t).
  apply list_eq. intros j. rewrite !lookup_inserts, !length_insert, !length_inserts.
  case_decide; [done|].
  destruct (decide (j = c)) as [->|Hjc].
  - destruct (decide (c < length t')%nat) as [Hc|Hc].
    + rewrite list_lookup_insert_eq by (by rewrite length_inserts).
      subst t'. rewrite list_lookup_insert_eq; [done|]. by rewrite length_insert in Hc.
    + rewrite !lookup_ge_None_2; [done|lia|rewrite length_insert, length_inserts; lia].
  - rewrite list_lookup_insert_ne by done. rewrite lookup_inserts.
    by case_decide.
Qed.

(** ** The encoders only write *)

Lemma frame_self e : frame e (text e) (alerts e) = e.
Proof. by destruct e. Qed.

Lemma Writes_ret {A} (a : A) : Writes (mret a).
Proof.
  intros e. exists [], []. split; [simpl; lia|].
  intros t al. unfold mret, M_ret. simpl. by rewrite app_nil_r.
Qed.

Lemma Writes_bind {A B} (m : M A) (k : A → M B) :
  Writes m → (∀ a, Writes (k a)) → Writes (m ≫= k).
Proof.
  intros Hm Hk e.
  destruct (Hm e) as (ws1 & al1 & Hp1 & Hrun1).
  destruct (Hk (fst (m e)) (snd (m e))) as (ws2 & al2 & Hp2 & Hrun2).
  exists (ws1 ++ ws2)%list, (al1 ++ al2)%list. unfold mbind, M_bind. split.
  - cbn [fst snd]. rewrite Hp2, Hp1, total_length_app. lia.
  - intros t al. rewrite Hrun1. cbn [fst snd]. rewrite Hrun2.
    rewrite sprintf_all_app, Hp1, (assoc_L (++)). done.
Qed.

Lemma Writes_WRITE s : Writes (WRITE s).
Proof.
  intros e. exists [s], []. split; [simpl; lia|].
  intros t al. unfold WRITE, frame. simpl. by rewrite app_nil_r.
Qed.

Lemma Writes_get_count : Writes (get s_incrementSampleXCount).
Proof.
  intros e. exists [], []. split; [simpl; lia|].
  intros t al. unfold get, frame. simpl. by rewrite app_nil_r.
Qed.

Lemma Writes_get_added : Writes (get IntensityConstantAdded).
Proof.
  intros e. exists [], []. split; [simpl; lia|].
  intros t al. unfold get, frame. simpl. by rewrite app_nil_r.
Qed.

Lemma Writes_set_added b : Writes (set_IntensityConstantAdded b).
Proof.
  intros e. exists [], []. split; [simpl; lia|].
  intros t al. unfold set_IntensityConstantAdded, frame. simpl. by rewrite app_nil_r.
Qed.

Lemma Writes_set_count v : Writes (set_s_incrementSampleXCount v).
Proof.
  intros e. exists [], []. split; [simpl; lia|].
  intros t al. unfold set_s_incrementSampleXCount, frame. simpl. by rewrite app_nil_r.
Qed.

Lemma Writes_PanicAlert msg : Writes (PanicAlert msg).
Proof.
  intros e. exists [], [msg]. split; [simpl; lia|].
  intros t al. by unfold PanicAlert, frame.
Qed.

Lemma Writes_for {A} (l : list A) (body : A → M unit) :
  (∀ i, Writes (body i)) → Writes (for_ l body).
Proof.
  intros Hbody. induction l as [|i l IH]; simpl; [apply Writes_ret|].
  apply Writes_bind; [apply Hbody|]. by intros _.
Qed.

Lemma Resets_bind {A B} (m : M A) (k : A → M B) :
  (∀ a, Resets (k a)) → Resets (m ≫= k).
Proof. intros Hk e. unfold mbind, M_bind. apply Hk. Qed.

Create HintDb writes.

#[local] Hint Resolve Writes_ret Writes_WRITE Writes_get_count Writes_get_added
  Writes_set_added Writes_set_count Writes_PanicAlert : writes.

(** Walks down a chain of binds; the leaves are closed from the hints. *)
Ltac writes_step :=
  lazymatch goal with
  | |- Writes (let _ := _ in _) => cbv zeta
  | |- Writes (mbind _ _) => apply Writes_bind; [|intros ?]
  | |- Writes (for_ _ _) => apply Writes_for; intros ?
  | |- Writes (if ?b then _ else _) => destruct b
  | |- Writes _ => solve [auto 1 with writes nocore]
  end.

Ltac writes := repeat writes_step.

Ltac resets :=
  repeat lazymatch goal with
  | |- Resets (let _ := _ in _) => cbv zeta
  | |- Resets (mbind _ _) => apply Resets_bind; intros ?
  end.

Section Encoders_write.
Context `{V : VideoCommon}.

Lemma Writes_WriteSwizzler format : Writes (WriteSwizzler format).
Proof. unfold WriteSwizzler. writes. Qed.

Lemma Writes_Write32BitSwizzler format : Writes (Write32BitSwizzler format).
Proof. unfold Write32BitSwizzler. writes. Qed.

Lemma Writes_WriteSampleColor colorComp dest : Writes (WriteSampleColor colorComp dest).
Proof. unfold WriteSampleColor. writes. Qed.

Lemma Writes_WriteColorToIntensity src dest : Writes (WriteColorToIntensity src dest).
Proof. unfold WriteColorToIntensity. writes. Qed.

Lemma Writes_WriteIncrementSampleX : Writes WriteIncrementSampleX.
Proof. unfold WriteIncrementSampleX. writes. Qed.

Lemma Writes_WriteToBitDepth depth src dest : Writes (WriteToBitDepth depth src dest).
Proof. unfold WriteToBitDepth. writes. Qed.

Lemma Writes_WriteEncoderEnd : Writes WriteEncoderEnd.
Proof. unfold WriteEncoderEnd. writes. Qed.

Lemma Resets_WriteEncoderEnd : Resets WriteEncoderEnd.
Proof. by intros e. Qed.

#[local] Hint Resolve Writes_WriteSwizzler Writes_Write32BitSwizzler
  Writes_WriteSampleColor Writes_WriteColorToIntensity Writes_WriteIncrementSampleX
  Writes_WriteToBitDepth Writes_WriteEncoderEnd : writes.

Lemma Writes_WriteI8Encoder : Writes WriteI8Encoder.
Proof. unfold WriteI8Encoder. writes. Qed.
Lemma Writes_WriteI4Encoder : Writes WriteI4Encoder.
Proof. unfold WriteI4Encoder. writes. Qed.
Lemma Writes_WriteIA8Encoder : Writes WriteIA8Encoder.
Proof. unfold WriteIA8Encoder. writes. Qed.
Lemma Writes_WriteIA4Encoder : Writes WriteIA4Encoder.
Proof. unfold WriteIA4Encoder. writes. Qed.
Lemma Writes_WriteRGB565Encoder : Writes WriteRGB565Encoder.
Proof. unfold WriteRGB565Encoder. writes. Qed.
Lemma Writes_WriteRGB5A3Encoder : Writes WriteRGB5A3Encoder.
Proof. unfold WriteRGB5A3Encoder. writes. Qed.
Lemma Writes_WriteRGBA4443Encoder : Writes WriteRGBA4443Encoder.
Proof. unfold WriteRGBA4443Encoder. writes. Qed.
Lemma Writes_WriteRGBA8Encoder : Writes WriteRGBA8Encoder.
Proof. unfold WriteRGBA8Encoder. writes. Qed.
Lemma Writes_WriteC4Encoder comp : Writes (WriteC4Encoder comp).
Proof. unfold WriteC4Encoder. writes. Qed.
Lemma Writes_WriteC8Encoder comp : Writes (WriteC8Encoder comp).
Proof. unfold WriteC8Encoder. writes. Qed.
Lemma Writes_WriteCC4Encoder comp : Writes (WriteCC4Encoder comp).
Proof. unfold WriteCC4Encoder. writes. Qed.
Lemma Writes_WriteCC8Encoder comp : Writes (WriteCC8Encoder comp).
Proof. unfold WriteCC8Encoder. writes. Qed.
Lemma Writes_WriteZ8Encoder multiplier : Writes (WriteZ8Encoder multiplier).
Proof. unfold WriteZ8Encoder. writes. Qed.
Lemma Writes_WriteZ16Encoder : Writes WriteZ16Encoder.
Proof. unfold WriteZ16Encoder. writes. Qed.
Lemma Writes_WriteZ16LEncoder : Writes WriteZ16LEncoder.
Proof. unfold WriteZ16LEncoder. writes. Qed.
Lemma Writes_WriteZ24Encoder : Writes WriteZ24Encoder.
Proof. unfold WriteZ24Encoder. writes. Qed.

Lemma Writes_dispatch format : Writes (dispatch format).
Proof.
  unfold dispatch.
  destruct (format_of_u32 format) as [[]|];
    lazymatch goal with
    | |- Writes WriteI8Encoder => exact Writes_WriteI8Encoder
    | |- Writes WriteI4Encoder => exact Writes_WriteI4Encoder
    | |- Writes WriteIA8Encoder => exact Writes_WriteIA8Encoder
    | |- Writes WriteIA4Encoder => exact Writes_WriteIA4Encoder
    | |- Writes WriteRGB565Encoder => exact Writes_WriteRGB565Encoder
    | |- Writes WriteRGB5A3Encoder => exact Writes_WriteRGB5A3Encoder
    | |- Writes WriteRGBA8Encoder => exact Writes_WriteRGBA8Encoder
    | |- Writes (WriteC4Encoder ?c) => exact (Writes_WriteC4Encoder c)
    | |- Writes (WriteC8Encoder ?c) => exact (Writes_WriteC8Encoder c)
    | |- Writes (WriteCC4Encoder ?c) => exact (Writes_WriteCC4Encoder c)
    | |- Writes (WriteCC8Encoder ?c) => exact (Writes_WriteCC8Encoder c)
    | |- Writes (WriteZ8Encoder ?c) => exact (Writes_WriteZ8Encoder c)
    | |- Writes WriteZ16Encoder => exact Writes_WriteZ16Encoder
    | |- Writes WriteZ16LEncoder => exact Writes_WriteZ16LEncoder
    | |- Writes WriteZ24Encoder => exact Writes_WriteZ24Encoder
    | |- Writes (PanicAlert ?m) => exact (Writes_PanicAlert m)
    end.
Qed.

(** Every encoder of the switch ends in [WriteEncoderEnd]. *)
Lemma Resets_dispatch format f :
  format_of_u32 format = Some f → Resets (dispatch format).
Proof.
  intros Hf. unfold dispatch. rewrite Hf.
  destruct f;
    lazymatch goal with
    | |- Resets WriteI8Encoder => unfold WriteI8Encoder
    | |- Resets WriteI4Encoder => unfold WriteI4Encoder
    | |- Resets WriteIA8Encoder => unfold WriteIA8Encoder
    | |- Resets WriteIA4Encoder => unfold WriteIA4Encoder
    | |- Resets WriteRGB565Encoder => unfold WriteRGB565Encoder
    | |- Resets WriteRGB5A3Encoder => unfold WriteRGB5A3Encoder
    | |- Resets WriteRGBA8Encoder => unfold WriteRGBA8Encoder
    | |- Resets (WriteC4Encoder _) => unfold WriteC4Encoder
    | |- Resets (WriteC8Encoder _) => unfold WriteC8Encoder
    | |- Resets (WriteCC4Encoder _) => unfold WriteCC4Encoder
    | |- Resets (WriteCC8Encoder _) => unfold WriteCC8Encoder
    | |- Resets (WriteZ8Encoder _) => unfold WriteZ8Encoder
    | |- Resets WriteZ16Encoder => unfold WriteZ16Encoder
    | |- Resets WriteZ16LEncoder => unfold WriteZ16LEncoder
    | |- Resets WriteZ24Encoder => unfold WriteZ24Encoder
    end;
    resets; exact Resets_WriteEncoderEnd.
Qed.
End Encoders_write.

(** ** GenerateEncodingShader *)

Section GenerateEncodingShader_facts.
Context `{V : VideoCommon}.

Lemma GenerateEncodingShader_eq format e :
  GenerateEncodingShader format e =
    let e1 := snd (dispatch format (at_switch e)) in
    (c_str (string_of_list_ascii (text e1)),
     if bool_decide (text e1 !! (TEXT_SIZE - 1)%nat = Some canary) then e1
     else snd (PanicAlert canary_message e1)).
Proof.
  unfold GenerateEncodingShader, at_switch, check_canary, mbind, M_bind, get.
  cbn [fst snd]. by destruct (bool_decide _).
Qed.

Lemma at_switch_frame e :
  at_switch e =
    frame {| p := 0; text := []; IntensityConstantAdded := IntensityConstantAdded e;
             s_incrementSampleXCount := s_incrementSampleXCount e; alerts := [] |}
          (<[(TEXT_SIZE - 1)%nat := canary]> (text e)) (alerts e).
Proof. reflexivity. Qed.

(** What the switch leaves in [text]: the [WRITE]s of the encoder, from
    the start of the buffer. *)
Lemma dispatch_text format e :
  ∃ ws, p (snd (dispatch format (at_switch e))) = total_length ws ∧
        text (snd (dispatch format (at_switch e))) =
          sprintf_all (<[(TEXT_SIZE - 1)%nat := canary]> (text e)) 0 ws.
Proof.
  destruct (Writes_dispatch format (at_switch e)) as (ws & al & Hp & Hrun).
  exists ws. split; [by rewrite Hp|].
  specialize (Hrun (text (at_switch e)) (alerts (at_switch e))).
  rewrite frame_self in Hrun. by rewrite Hrun at 1.
Qed.

(** For a format of the switch, the [WRITE]s depend on the format
    alone once the two statics are as [WriteEncoderEnd] leaves them. *)
Lemma GenerateEncodingShader_writes format f :
  format_of_u32 format = Some f →
  ∃ ws, ∀ e,
    IntensityConstantAdded e = false → s_incrementSampleXCount e = 0 →
    text (snd (GenerateEncodingShader format e)) =
      sprintf_all (<[(TEXT_SIZE - 1)%nat := canary]> (text e)) 0 ws ∧
    fst (GenerateEncodingShader format e) =
      c_str (string_of_list_ascii (text (snd (GenerateEncodingShader format e)))) ∧
    IntensityConstantAdded (snd (GenerateEncodingShader format e)) = false ∧
    s_incrementSampleXCount (snd (GenerateEncodingShader format e)) = 0.
Proof.
  intros Hf.
  set (X := {| p := 0; text := []; IntensityConstantAdded := false;
               s_incrementSampleXCount := 0; alerts := [] |}).
  destruct (Writes_dispatch format X) as (ws & al & _ & Hrun).
  exists ws. intros e Hadded Hcount.
  rewrite GenerateEncodingShader_eq. cbv zeta.
  rewrite at_switch_frame, Hadded, Hcount. fold X. rewrite Hrun. cbn [fst snd].
  destruct (Resets_dispatch format f Hf X) as [Hb Hn].
  by destruct (bool_decide _).
Qed.

Lemma GenerateEncodingShader_statics format e :
  IntensityConstantAdded e = false → s_incrementSampleXCount e = 0 →
  IntensityConstantAdded (snd (GenerateEncodingShader format e)) = false ∧
  s_incrementSampleXCount (snd (GenerateEncodingShader format e)) = 0.
Proof.
  intros Hadded Hcount.
  destruct (format_of_u32 format) as [f|] eqn:Hf.
  - destruct (GenerateEncodingShader_writes format f Hf) as (ws & Hws).
    by destruct (Hws e Hadded Hcount) as (_ & _ & ? & ?).
  - rewrite GenerateEncodingShader_eq. cbv zeta. unfold dispatch. rewrite Hf.
    by destruct (bool_decide _).
Qed.

Lemma run_calls_statics formats :
  IntensityConstantAdded (run_calls formats) = false ∧
  s_incrementSampleXCount (run_calls formats) = 0.
Proof.
  unfold run_calls.
  assert (IntensityConstantAdded Encoder_init = false ∧
          s_incrementSampleXCount Encoder_init = 0) as Hinit by done.
  revert Hinit. generalize Encoder_init.
  induction formats as [|format formats IH]; intros e [Hb Hn]; [done|].
  cbn [fold_left]. by apply IH, GenerateEncodingShader_statics.
Qed.

Lemma length_text_GenerateEncodingShader format e :
  length (text (snd (GenerateEncodingShader format e))) = length (text e).
Proof.
  rewrite GenerateEncodingShader_eq. cbv zeta.
  destruct (dispatch_text format e) as (ws & _ & Htext).
  assert (length (text (snd (dispatch format (at_switch e)))) = length (text e)) as Hlen
    by (by rewrite Htext, length_sprintf_all, length_insert).
  by destruct (bool_decide _).
Qed.
End GenerateEncodingShader_facts.

Section GenerateEncodingShader_claims.
Context `{V : VideoCommon}.


(** C7: for a format code that is none of those of the switch,
    [GenerateEncodingShader] raises the alert that names the code and
    runs no encoder: apart from the canary byte, [text] and the statics
    are as they were (what is returned is the text already there). *)
Theorem unknown_format (format : Z) (e : Encoder) :
  format_of_u32 format = None →
  length (text e) = TEXT_SIZE →
  GenerateEncodingShader format e =
    (c_str (string_of_list_ascii (<[(TEXT_SIZE - 1)%nat := canary]> (text e))),
     {| p := 0;
        text := <[(TEXT_SIZE - 1)%nat := canary]> (text e);
        IntensityConstantAdded := IntensityConstantAdded e;
        s_incrementSampleXCount := s_incrementSampleXCount e;
        alerts := alerts e ++ [ln ("Unknown texture copy format: 0x" +:+ hex format)] |}) ∧
  ∀ i : nat, i ≠ (TEXT_SIZE - 1)%nat →
    text (snd (GenerateEncodingShader format e)) !! i = text e !! i.
Proof.
  intros Hf Hlen.
  assert (GenerateEncodingShader format e =
    (c_str (string_of_list_ascii (<[(TEXT_SIZE - 1)%nat := canary]> (text e))),
     {| p := 0;
        text := <[(TEXT_SIZE - 1)%nat := canary]> (text e);
        IntensityConstantAdded := IntensityConstantAdded e;
        s_incrementSampleXCount := s_incrementSampleXCount e;
        alerts := alerts e ++ [ln ("Unknown texture copy format: 0x" +:+ hex format)] |}))
    as Heq.
  { rewrite GenerateEncodingShader_eq. cbv zeta. unfold dispatch. rewrite Hf.
    unfold at_switch, mbind, M_bind, set_text, set_p, PanicAlert. cbn [fst snd text].
    rewrite bool_decide_eq_true_2; [done|].
    apply list_lookup_insert_eq. rewrite Hlen. unfold TEXT_SIZE. lia. }
  split; [done|]. intros i Hi. rewrite Heq. cbn [snd text].
  by apply list_lookup_insert_ne.
Qed.

(** C9: at any point of a run, two calls in a row of
    [GenerateEncodingShader] for a format of the switch return the same
    text and leave [text] the same; after each of them the two statics
    are back at [false] and 0, as [WriteEncoderEnd] sets them. *)
Theorem GenerateEncodingShader_twice (formats : list Z) (format : Z) (f : TexFormat) :
  format_of_u32 format = Some f →
  let e := run_calls formats in
  let r1 := GenerateEncodingShader format e in
  let r2 := GenerateEncodingShader format (snd r1) in
  fst r2 = fst r1 ∧
  text (snd r2) = text (snd r1) ∧
  IntensityConstantAdded (snd r1) = false ∧ s_incrementSampleXCount (snd r1) = 0 ∧
  IntensityConstantAdded (snd r2) = false ∧ s_incrementSampleXCount (snd r2) = 0.
Proof.
  intros Hf e r1 r2.
  destruct (GenerateEncodingShader_writes format f Hf) as (ws & Hws).
  destruct (run_calls_statics formats) as [Hb Hn]. fold e in Hb, Hn.
  destruct (Hws e Hb Hn) as (Ht1 & Hr1 & Hb1 & Hn1). fold r1 in Ht1, Hr1, Hb1, Hn1.
  destruct (Hws (snd r1) Hb1 Hn1) as (Ht2 & Hr2 & Hb2 & Hn2).
  fold r2 in Ht2, Hr2, Hb2, Hn2.
  assert (text (snd r2) = text (snd r1)) as Htext.
  { rewrite Ht2, Ht1. apply sprintf_all_again. }
  split_and!; try done. by rewrite Hr2, Hr1, Htext.
Qed.

End GenerateEncodingShader_claims.


Lemma unknown_format_witness :
  GenerateEncodingShader (V := sample_video) 77 Encoder_init =
    (c_str (string_of_list_ascii (<[(TEXT_SIZE - 1)%nat := canary]> (text Encoder_init))),
     {| p := 0;
        text := <[(TEXT_SIZE - 1)%nat := canary]> (text Encoder_init);
        IntensityConstantAdded := false;
        s_incrementSampleXCount := 0;
        alerts := [] ++ [ln ("Unknown texture copy format: 0x" +:+ hex 77)] |}) ∧
  ∀ i : nat, i ≠ (TEXT_SIZE - 1)%nat →
    text (snd (GenerateEncodingShader (V := sample_video) 77 Encoder_init)) !! i
      = text Encoder_init !! i.
Proof.
  apply (unknown_format (V := sample_video) 77 Encoder_init); reflexivity.
Defined.

Lemma GenerateEncodingShader_twice_witness :
  let e := run_calls (V := sample_video) [5; 77] in
  let r1 := GenerateEncodingShader (V := sample_video) 0 e in
  let r2 := GenerateEncodingShader (V := sample_video) 0 (snd r1) in
  fst r2 = fst r1 ∧
  text (snd r2) = text (snd r1) ∧
  IntensityConstantAdded (snd r1) = false ∧ s_incrementSampleXCount (snd r1) = 0 ∧
  IntensityConstantAdded (snd r2) = false ∧ s_incrementSampleXCount (snd r2) = 0.
Proof.
  apply (GenerateEncodingShader_twice (V := sample_video) [5; 77] 0 GX_TF_I4).
  reflexivity.
Defined.

(** * Further properties *)

(** ** ShaderUid: comparison and hashing *)

Lemma lex_cmp_trans a b c : lex_cmp a b < 0 → lex_cmp b c < 0 → lex_cmp a c < 0.
Proof.
  revert b c. induction a as [|x a IH]; intros [|y b] [|z c]; simpl; try lia.
  destruct (N.ltb_spec x y), (N.ltb_spec y x), (N.ltb_spec y z), (N.ltb_spec z y),
    (N.ltb_spec x z), (N.ltb_spec z x); try lia.
  apply IH.
Qed.

Section ShaderUid_order.
Context `{D : UidData} `{H : Host}.

(** X1: [operator==] is an equivalence on uids, and [operator!=] is its
    negation. *)
Theorem operator_eq_equivalence (a b c : ShaderUid) :
  operator_eq a a = true ∧
  operator_eq a b = operator_eq b a ∧
  implb (operator_eq a b && operator_eq b c) (operator_eq a c) = true ∧
  operator_ne a b = negb (operator_eq a b).
Proof.
  split_and!.
  - by apply operator_eq_iff.
  - apply eq_true_iff_eq. rewrite !operator_eq_iff. split; congruence.
  - destruct (operator_eq a b) eqn:Hab, (operator_eq b c) eqn:Hbc; simpl; try done.
    apply operator_eq_iff in Hab, Hbc. apply operator_eq_iff. congruence.
  - done.
Qed.

(** X2: [operator<] is a strict total order on the meaningful bytes, as
    [std::map] needs of its key order: nothing is below itself, it is
    transitive, two uids are never each below the other, and neither is
    below the other exactly when [operator==] holds. *)
Theorem operator_lt_strict_order (a b c : ShaderUid) :
  operator_lt a a = false ∧
  implb (operator_lt a b && operator_lt b c) (operator_lt a c) = true ∧
  operator_lt a b && operator_lt b a = false ∧
  operator_eq a b = negb (operator_lt a b) && negb (operator_lt b a).
Proof.
  split_and!.
  - apply operator_lt_irrefl.
  - destruct (operator_lt a b) eqn:Hab, (operator_lt b c) eqn:Hbc; simpl; try done.
    unfold operator_lt, memcmp in *. apply Z.ltb_lt in Hab, Hbc. apply Z.ltb_lt.
    by eapply lex_cmp_trans.
  - destruct (operator_lt a b) eqn:Hab, (operator_lt b a) eqn:Hba; simpl; try done.
    unfold operator_lt, memcmp in *. apply Z.ltb_lt in Hab, Hba.
    apply lex_cmp_antisym in Hab. lia.
  - apply eq_true_iff_eq.
    rewrite operator_eq_iff, <-operator_lt_equiv, andb_true_iff, !negb_true_iff. done.
Qed.

(** X3: two uids that [operator==] takes for equal and whose hash has
    not been computed yet get the same [HASH] from [CalculateUIDHash], so
    [ShaderUidHasher] agrees with [operator==] on them. *)
Theorem equal_uids_hash_alike (a b : ShaderUid) :
  operator_eq a b = true → HASH a = 0 → HASH b = 0 →
  ShaderUidHasher (snd (CalculateUIDHash a)) = ShaderUidHasher (snd (CalculateUIDHash b)).
Proof.
  intros Hab%operator_eq_iff Ha Hb. unfold CalculateUIDHash, ShaderUidHasher.
  rewrite Ha, Hb. simpl. by rewrite Hab.
Qed.

(** X4: where the range that [StartValue()] and [NumValues()] delimit
    lies within the record (so that [memcmp] reads [NumValues()] bytes of
    [values] and nothing after them), the bytes outside the range and
    the [HASH] play no part in comparison: a uid altered there only is
    [operator==] to the original, neither is [operator<] the other, and
    a [UidChecker] takes the two for the same uid. *)
Theorem bytes_outside_range_ignored (u : ShaderUid) (bytes' : list byte) (h' : Z)
    (c : UidChecker) :
  (StartValue + NumValues ≤ sizeof_uid_data)%nat →
  length (values u) = sizeof_uid_data →
  length bytes' = sizeof_uid_data →
  (∀ i, StartValue ≤ i < StartValue + NumValues → bytes' !! i = values u !! i)%nat →
  let u' := {| values := bytes'; HASH := h' |} in
  length (meaningful u) = NumValues ∧ length (meaningful u') = NumValues ∧
  operator_eq u u' = true ∧ operator_ne u u' = false ∧
  operator_lt u u' = false ∧ operator_lt u' u = false ∧
  uid_is_indexed c u' = uid_is_indexed c u ∧
  m_shaders c !! meaningful u' = m_shaders c !! meaningful u.
Proof.
  intros Hwindow Hlen Hlen' Hrange u'.
  assert (meaningful u' = meaningful u) as Hm by (by apply meaningful_ext).
  assert (length (meaningful u) = NumValues) as Hfull.
  { unfold meaningful. rewrite length_take, length_drop. lia. }
  assert (operator_eq u u' = true) as Heq by (by apply operator_eq_iff).
  destruct (proj2 (operator_lt_equiv u u') (eq_sym Hm)) as [Hlt1 Hlt2].
  split_and!; try done.
  - by rewrite Hm.
  - unfold operator_ne. unfold operator_eq in Heq. by rewrite Heq.
  - apply eq_true_iff_eq. by rewrite !uid_is_indexed_iff, Hm.
  - by rewrite Hm.
Qed.
End ShaderUid_order.

Lemma equal_uids_hash_alike_witness :
  ShaderUidHasher (snd (CalculateUIDHash (D := uid5) (H := host0) uid5_a)) =
  ShaderUidHasher (snd (CalculateUIDHash (D := uid5) (H := host0)
                          {| values := bytes_of [7; 1; 2; 3; 4]%N; HASH := 0 |})).
Proof.
  apply (equal_uids_hash_alike (D := uid5) (H := host0) uid5_a
           {| values := bytes_of [7; 1; 2; 3; 4]%N; HASH := 0 |}); reflexivity.
Defined.

Lemma bytes_outside_range_ignored_witness :
  let u' := {| values := bytes_of [7; 1; 2; 3; 4]%N; HASH := 5 |} in
  length (meaningful (D := uid5) uid5_a) = 4%nat ∧
  length (meaningful (D := uid5) u') = 4%nat ∧
  operator_eq (D := uid5) uid5_a u' = true ∧ operator_ne (D := uid5) uid5_a u' = false ∧
  operator_lt (D := uid5) uid5_a u' = false ∧ operator_lt (D := uid5) u' uid5_a = false ∧
  uid_is_indexed (D := uid5) UidChecker_new u' = uid_is_indexed (D := uid5) UidChecker_new uid5_a ∧
  m_shaders UidChecker_new !! meaningful (D := uid5) u'
    = m_shaders UidChecker_new !! meaningful (D := uid5) uid5_a.
Proof.
  apply (bytes_outside_range_ignored (D := uid5) uid5_a (bytes_of [7; 1; 2; 3; 4]%N) 5
           UidChecker_new).
  - simpl. lia.
  - reflexivity.
  - reflexivity.
  - intros i Hi. simpl in Hi.
    destruct i as [|[|[|[|[|i]]]]]; [lia|reflexivity..|lia].
Defined.

(** ** UidChecker: what a call keeps, counts and forgets *)

Section UidChecker_more.
Context `{D : UidData} `{H : Host}.

Lemma AddToIndexAndCheck_m_uids T U ty pre st :
  m_uids (fst (AddToIndexAndCheck T U ty pre st)) =
    if uid_is_indexed (fst st) U then m_uids (fst st) else (m_uids (fst st) ++ [U])%list.
Proof.
  unfold AddToIndexAndCheck. destruct (uid_is_indexed (fst st) U); simpl; [|done].
  by destruct (negb _).
Qed.

Lemma AddToIndexAndCheck_m_shaders T U ty pre st :
  m_shaders (fst (AddToIndexAndCheck T U ty pre st)) =
    <[meaningful U :=
        if uid_is_indexed (fst st) U
        then default "" (m_shaders (fst st) !! meaningful U) else c_str T]>
      (m_shaders (fst st)).
Proof.
  unfold AddToIndexAndCheck. destruct (uid_is_indexed (fst st) U); simpl; [|done].
  by destruct (negb _).
Qed.

Lemma AddToIndexAndCheck_other T U V ty pre st :
  meaningful V ≠ meaningful U →
  m_shaders (fst (AddToIndexAndCheck T U ty pre st)) !! meaningful V
    = m_shaders (fst st) !! meaningful V ∧
  uid_is_indexed (fst (AddToIndexAndCheck T U ty pre st)) V = uid_is_indexed (fst st) V.
Proof.
  intros Hkey. split.
  - rewrite AddToIndexAndCheck_m_shaders. by apply lookup_insert_ne.
  - apply eq_true_iff_eq. rewrite !uid_is_indexed_iff, AddToIndexAndCheck_m_uids.
    destruct (uid_is_indexed (fst st) U); [done|].
    rewrite fmap_app, elem_of_app. simpl. rewrite list_elem_of_singleton.
    split; [|by left]. intros [Hin|Heq]; [exact Hin|congruence].
Qed.

(** X5: a call for uid [U] leaves every other uid as it was: its stored
    text, whether it is indexed, and its place in [m_uids] (the sequence
    only grows at its end). *)
Theorem AddToIndexAndCheck_frame (T : string) (U V : ShaderUid) (ty pre : string)
    (st : UidChecker * Diagnostics) :
  operator_eq V U = false →
  let st' := AddToIndexAndCheck T U ty pre st in
  m_shaders (fst st') !! meaningful V = m_shaders (fst st) !! meaningful V ∧
  uid_is_indexed (fst st') V = uid_is_indexed (fst st) V ∧
  m_uids (fst st) `prefix_of` m_uids (fst st').
Proof.
  intros Hne st'. subst st'.
  assert (meaningful V ≠ meaningful U) as Hkey.
  { intros Heq%operator_eq_iff. congruence. }
  destruct (AddToIndexAndCheck_other T U V ty pre st Hkey) as [Hs Hi].
  split_and!; [done..|].
  rewrite AddToIndexAndCheck_m_uids.
  destruct (uid_is_indexed (fst st) U); [done|]. by apply prefix_app_r.
Qed.

Lemma AddToIndexAndCheck_keeps T V ty pre st U S :
  uid_is_indexed (fst st) U = true →
  m_shaders (fst st) !! meaningful U = Some S →
  uid_is_indexed (fst (AddToIndexAndCheck T V ty pre st)) U = true ∧
  m_shaders (fst (AddToIndexAndCheck T V ty pre st)) !! meaningful U = Some S.
Proof.
  intros Hidx Hlook.
  destruct (operator_eq U V) eqn:HUV.
  - apply operator_eq_iff in HUV.
    assert (uid_is_indexed (fst st) V = true) as HV.
    { apply uid_is_indexed_iff. rewrite <-HUV. by apply uid_is_indexed_iff. }
    split.
    + apply uid_is_indexed_iff. rewrite AddToIndexAndCheck_m_uids, HV.
      by apply uid_is_indexed_iff.
    + rewrite AddToIndexAndCheck_m_shaders, HV, <-HUV, Hlook. apply lookup_insert_eq.
  - assert (meaningful U ≠ meaningful V) as Hkey.
    { intros Heq%operator_eq_iff. congruence. }
    destruct (AddToIndexAndCheck_other T V U ty pre st Hkey) as [Hs Hi].
    by rewrite Hs, Hi.
Qed.

(** X6: the text stored for an indexed uid is the one of its first
    call for good: no later call of [AddToIndexAndCheck], for this uid or
    another, with the same text or another, changes it or drops the uid. *)
Theorem first_text_kept (calls : list (string * ShaderUid)) (ty pre : string)
    (st : UidChecker * Diagnostics) (U : ShaderUid) (S : string) :
  uid_is_indexed (fst st) U = true →
  m_shaders (fst st) !! meaningful U = Some S →
  let st' := add_all calls ty pre st in
  uid_is_indexed (fst st') U = true ∧
  m_shaders (fst st') !! meaningful U = Some S.
Proof.
  revert st. unfold add_all.
  induction calls as [|[T V] calls IH]; intros st Hidx Hlook; [done|].
  cbn [fold_left fst snd].
  destruct (AddToIndexAndCheck_keeps T V ty pre st U S Hidx Hlook) as [Hidx' Hlook'].
  by apply IH.
Qed.


Lemma AddToIndexAndCheck_twice_same_first T U ty pre st :
  uid_is_indexed (fst st) U = false →
  snd st = snd (AddToIndexAndCheck T U ty pre st) ∧
  uid_is_indexed (fst (AddToIndexAndCheck T U ty pre st)) U = true ∧
  m_shaders (fst (AddToIndexAndCheck T U ty pre st)) !! meaningful U = Some (c_str T) ∧
  uid_count (fst (AddToIndexAndCheck T U ty pre st)) U = 1%nat.
Proof.
  intros Hnew.
  assert (AddToIndexAndCheck T U ty pre st =
    ({| m_shaders := <[meaningful U := c_str T]> (m_shaders (fst st));
        m_uids := m_uids (fst st) ++ [U] |}, snd st)) as ->.
  { unfold AddToIndexAndCheck. by rewrite Hnew. }
  cbn [fst snd]. split_and!; [done| | |].
  - apply uid_is_indexed_iff. cbn [m_uids]. rewrite fmap_app, elem_of_app. right.
    simpl. by apply list_elem_of_singleton.
  - apply lookup_insert_eq.
  - unfold uid_count. cbn [m_uids]. rewrite List.filter_app, length_app. simpl.
    assert (operator_eq U U = true) as -> by (by apply operator_eq_iff).
    apply uid_count_not_indexed in Hnew. unfold uid_count in Hnew. simpl. lia.
Qed.

Lemma AddToIndexAndCheck_files T U ty pre st S :
  uid_is_indexed (fst st) U = true →
  m_shaders (fst st) !! meaningful U = Some S →
  length (files (snd (AddToIndexAndCheck T U ty pre st))) =
    (length (files (snd st)) + if decide (c_str T ≠ c_str S) then 1 else 0)%nat.
Proof.
  intros Hidx Hlook. unfold AddToIndexAndCheck.
  rewrite Hidx, Hlook. cbn [negb default from_option id].
  destruct (strcmp S T =? 0) eqn:Hcmp.
  - apply Z.eqb_eq, strcmp_eq in Hcmp. cbn [negb snd].
    rewrite decide_False by (intros Hne; by apply Hne). lia.
  - apply Z.eqb_neq in Hcmp. rewrite strcmp_eq in Hcmp. cbn [negb snd files].
    rewrite length_app, decide_True by congruence. done.
Qed.

(** X7: calls for one uid, new to the checker, with the texts [T1] and
    then [Ts]: every text of [Ts] that differs from [T1] as a C string
    writes one dump file, the others write none (a text is compared with
    the first one, not with the one before it), and the map keeps [T1]. *)
Theorem dumps_count_differences (T1 : string) (Ts : list string) (U : ShaderUid)
    (ty pre : string) (st : UidChecker * Diagnostics) :
  uid_is_indexed (fst st) U = false →
  let st' := add_all ((λ T, (T, U)) <$> T1 :: Ts) ty pre st in
  length (files (snd st')) =
    (length (files (snd st)) + length (filter (λ T, c_str T ≠ c_str T1) Ts))%nat ∧
  m_shaders (fst st') !! meaningful U = Some (c_str T1) ∧
  uid_count (fst st') U = 1%nat.
Proof.
  intros Hnew st'. subst st'. unfold add_all. cbn [fmap list_fmap fold_left fst snd].
  destruct (AddToIndexAndCheck_twice_same_first T1 U ty pre st Hnew)
    as (Hsnd & Hidx & Hlook & Hcount).
  rewrite Hsnd. clear Hsnd Hnew.
  revert Hidx Hlook Hcount. generalize (AddToIndexAndCheck T1 U ty pre st). clear st.
  induction Ts as [|T Ts IH]; intros st Hidx Hlook Hcount.
  - simpl. split_and!; [lia|done..].
  - cbn [fmap list_fmap fold_left fst snd].
    destruct (AddToIndexAndCheck_keeps T U ty pre st U (c_str T1) Hidx Hlook)
      as [Hidx' Hlook'].
    assert (uid_count (fst (AddToIndexAndCheck T U ty pre st)) U = 1%nat) as Hcount'.
    { unfold uid_count. by rewrite AddToIndexAndCheck_m_uids, Hidx. }
    destruct (IH _ Hidx' Hlook' Hcount') as (Hfiles & ? & ?).
    split_and!; [|done..].
    rewrite Hfiles, (AddToIndexAndCheck_files T U ty pre st (c_str T1)) by done.
    rewrite c_str_idemp, filter_cons. case_decide; simpl; lia.
Qed.
End UidChecker_more.

Section UidChecker_diagnostics.
Context `{D : UidData} `{H : Host}.

Lemma recorded_ext past U U' :
  meaningful U = meaningful U' → recorded past U = recorded past U'.
Proof.
  intros Heq. induction past as [|[T V ty pre|] past IH]; simpl; [done| |done].
  rewrite IH. destruct (recorded past U'); [done|].
  assert (operator_eq V U = operator_eq V U') as ->; [|done].
  apply eq_true_iff_eq. rewrite !operator_eq_iff. by rewrite Heq.
Qed.

Lemma recorded_c_str past U old : recorded past U = Some old → c_str old = old.
Proof.
  revert old. induction past as [|[T V ty pre|] past IH]; intros old; simpl; [done| |done].
  destruct (recorded past U) as [old'|]; [intros [= <-]; by apply IH|].
  destruct (operator_eq V U); [|done]. intros [= <-]. apply c_str_idemp.
Qed.

Lemma agrees_new : agrees [] UidChecker_new.
Proof. intros U. split; [done|]. split; [done|]. by intros [? ?]. Qed.

(** The checker holds, for every uid, the text of its first call since
    the last [Invalidate]. *)
Lemma agrees_run_op past st o :
  agrees past (fst st) → agrees (o :: past) (fst (run_op st o)).
Proof.
  intros Hag U. destruct (Hag U) as [HlU HiU]. destruct o as [T V ty pre|].
  - cbn [run_op recorded].
    destruct (decide (meaningful U = meaningful V)) as [Heq|Hne].
    + destruct (Hag V) as [HlV HiV].
      rewrite (recorded_ext past U V Heq).
      assert (operator_eq V U = true) as -> by (by apply operator_eq_iff).
      split.
      * rewrite AddToIndexAndCheck_m_shaders, Heq, lookup_insert_eq.
        destruct (uid_is_indexed (fst st) V) eqn:HV.
        -- destruct (proj1 HiV eq_refl) as [old Hold]. by rewrite HlV, Hold.
        -- destruct (recorded past V) as [old|] eqn:Hold; [|done].
           assert (false = true) by (apply HiV; eauto). done.
      * split; [intros _; by destruct (recorded past V)|intros _].
        apply uid_is_indexed_iff. rewrite Heq, AddToIndexAndCheck_m_uids.
        destruct (uid_is_indexed (fst st) V) eqn:HV; [by apply uid_is_indexed_iff|].
        rewrite fmap_app, elem_of_app. right. simpl. by apply list_elem_of_singleton.
    + destruct (AddToIndexAndCheck_other T V U ty pre st Hne) as [Hs Hi].
      rewrite Hs, Hi.
      assert (operator_eq V U = false) as ->.
      { destruct (operator_eq V U) eqn:HVU; [|done].
        apply operator_eq_iff in HVU. congruence. }
      by destruct (recorded past U).
  - cbn [run_op recorded fst]. split; [done|]. split; [done|]. by intros [? ?].
Qed.

Lemma run_op_diagnostics past st o :
  agrees past (fst st) →
  num_failures (snd st) = Z.of_nat (length (files (snd st))) →
  files (snd (run_op st o)) =
    (files (snd st) ++
       imap (λ k, mismatch_file (length (files (snd st)) + k)) (mismatch_of past o))%list ∧
  error_log (snd (run_op st o)) =
    (error_log (snd st) ++
       imap (λ k, mismatch_log (length (files (snd st)) + k)) (mismatch_of past o))%list ∧
  num_failures (snd (run_op st o)) = Z.of_nat (length (files (snd (run_op st o)))).
Proof.
  intros Hag Hnum. destruct o as [T U ty pre|].
  2: { cbn [run_op mismatch_of snd imap]. by rewrite !app_nil_r. }
  cbn [run_op mismatch_of]. destruct (Hag U) as [Hl Hi].
  unfold AddToIndexAndCheck. cbv zeta.
  destruct (uid_is_indexed (fst st) U) eqn:HU; cbn [negb].
  - destruct (proj1 Hi eq_refl) as [old Hold]. rewrite Hold in Hl |- *. rewrite Hl.
    cbn [default from_option id].
    pose proof (recorded_c_str _ _ _ Hold) as Hc.
    destruct (decide (old = c_str T)) as [Heq|Hne].
    + assert ((strcmp old T =? 0) = true) as ->.
      { apply Z.eqb_eq, strcmp_eq. congruence. }
      cbn [negb snd imap]. by rewrite !app_nil_r.
    + assert ((strcmp old T =? 0) = false) as ->.
      { apply Z.eqb_neq. rewrite strcmp_eq. congruence. }
      cbn [negb snd files error_log num_failures imap].
      unfold mismatch_file, mismatch_log, dump_path.
      cbn [mm_old mm_new mm_uid mm_type mm_prefix].
      rewrite dump_uid_groups, Hnum, Nat.add_0_r, !app_assoc_s.
      split; [done|]. split; [done|]. rewrite length_app. simpl. lia.
  - destruct (recorded past U) as [old|] eqn:Hold.
    + assert (false = true) by (apply Hi; eauto). done.
    + cbn [snd imap]. by rewrite !app_nil_r.
Qed.

Lemma run_ops_diagnostics ops : ∀ past st,
  agrees past (fst st) →
  num_failures (snd st) = Z.of_nat (length (files (snd st))) →
  files (snd (fold_left run_op ops st)) =
    (files (snd st) ++
       imap (λ k, mismatch_file (length (files (snd st)) + k)) (mismatches past ops))%list ∧
  error_log (snd (fold_left run_op ops st)) =
    (error_log (snd st) ++
       imap (λ k, mismatch_log (length (files (snd st)) + k)) (mismatches past ops))%list ∧
  num_failures (snd (fold_left run_op ops st)) =
    Z.of_nat (length (files (snd (fold_left run_op ops st)))).
Proof.
  induction ops as [|o ops IH]; intros past st Hag Hnum.
  - cbn [fold_left mismatches imap]. by rewrite !app_nil_r.
  - cbn [fold_left mismatches].
    destruct (run_op_diagnostics past st o Hag Hnum) as (Hf & He & Hn).
    destruct (IH (o :: past) (run_op st o) (agrees_run_op past st o Hag) Hn)
      as (Hf' & He' & Hn').
    assert (length (files (snd (run_op st o))) =
            (length (files (snd st)) + length (mismatch_of past o))%nat) as Hlen
      by (by rewrite Hf, length_app, length_imap).
    split; [|split; [|done]].
    + rewrite Hf', Hlen, Hf, imap_app, <-(assoc_L (++)). do 2 f_equal.
      apply imap_ext. intros k m _. simpl. f_equal. lia.
    + rewrite He', Hlen, He, imap_app, <-(assoc_L (++)). do 2 f_equal.
      apply imap_ext. intros k m _. simpl. f_equal. lia.
Qed.

(** X8: over any sequence of [AddToIndexAndCheck] and [Invalidate] calls
    from start-up, the files written and the log lines are those of the
    mismatching calls, one each and in their order: a call is a mismatch
    when its text differs, as a C string, from the text of the first
    call for an equal uid since the last [Invalidate].  The [k]-th of
    them, counted since start-up, names its file from its own
    [dump_prefix] and the number [k] ([Invalidate] does not restart the
    numbering), and [num_failures] is their number. *)
Theorem dump_files_numbered (ops : list Op) :
  files (snd (run_ops ops)) = imap mismatch_file (mismatches [] ops) ∧
  error_log (snd (run_ops ops)) = imap mismatch_log (mismatches [] ops) ∧
  num_failures (snd (run_ops ops)) = Z.of_nat (length (mismatches [] ops)).
Proof.
  destruct (run_ops_diagnostics ops [] (UidChecker_new, Diagnostics_new) agrees_new eq_refl)
    as (Hf & He & Hn).
  fold (run_ops ops) in Hf, He, Hn. cbn [snd files error_log Diagnostics_new app] in Hf, He.
  split; [done|]. split; [done|]. by rewrite Hn, Hf, length_imap.
Qed.

(** X9: [Invalidate] makes the checker forget: a uid recorded with one
    text, then [Invalidate], then the same uid with another text gives no
    mismatch (nothing outside the checker changes) and the checker holds
    that uid alone, with the new text. *)
Theorem Invalidate_forgets (T1 T2 : string) (U : ShaderUid) (ty1 pre1 ty2 pre2 : string)
    (st : UidChecker * Diagnostics) :
  let st1 := AddToIndexAndCheck T1 U ty1 pre1 st in
  let st2 := AddToIndexAndCheck T2 U ty2 pre2 (Invalidate (fst st1), snd st1) in
  snd st2 = snd st1 ∧
  m_uids (fst st2) = [U] ∧
  m_shaders (fst st2) = {[meaningful U := c_str T2]}.
Proof. done. Qed.

Lemma seq_split_at (i n : nat) :
  (i < n)%nat → seq 0 n = (seq 0 i ++ i :: seq (S i) (n - S i))%list.
Proof.
  intros Hi. replace n with (i + S (n - S i))%nat at 1 by lia.
  by rewrite seq_app.
Qed.

(** X10: the loop that dumps the uid takes [GetUidDataSize()], a size in
    bytes, for its number of 32-bit words.  In the file a mismatching
    call writes, after the texts and the turns [0 .. i-1] of the loop,
    every turn [i] from [ceil(GetUidDataSize() / 4)] up to
    [GetUidDataSize() - 1] writes the eight hex digits of a word whose
    four bytes all lie past the end of the record. *)
Theorem dump_reads_past_record (T : string) (U : ShaderUid) (ty pre : string)
    (st : UidChecker * Diagnostics) (old : string) (i : nat) :
  length (values U) = sizeof_uid_data →
  (group_count ≤ i < sizeof_uid_data)%nat →
  uid_is_indexed (fst st) U = true →
  m_shaders (fst st) !! meaningful U = Some old →
  c_str old ≠ c_str T →
  let word :=
    le32 (past_the_end U (4 * i - sizeof_uid_data))
         (past_the_end U (4 * i + 1 - sizeof_uid_data))
         (past_the_end U (4 * i + 2 - sizeof_uid_data))
         (past_the_end U (4 * i + 3 - sizeof_uid_data)) in
  files (snd (AddToIndexAndCheck T U ty pre st)) =
    (files (snd st) ++
      [(dump_path pre (num_failures (snd st) + 1),
        "Old shader code:" +:+ nl +:+ old +:+ nl +:+ nl
          +:+ "New shader code:" +:+ nl +:+ c_str T +:+ nl +:+ nl
          +:+ "Shader uid:" +:+ nl
          +:+ cat (dump_uid_step U "" <$> seq 0 i)
          +:+ (if (i mod 4 =? 0)%nat then group_header (i / 4) else "")
          +:+ setw 8 "0" (hex word)
          +:+ (if (i mod 4 <? 3)%nat then " " else nl)
          +:+ cat (dump_uid_step U "" <$> seq (S i) (sizeof_uid_data - S i)))])%list.
Proof.
  intros Hlen [Hlo Hhi] Hidx Hlook Hdiff word.
  pose proof group_count_spec as Hcount.
  pose proof (Nat.div_mod_eq i 4) as Hdiv.
  pose proof (Nat.mod_upper_bound i 4) as Hmod.
  assert (raw_u32 U i = word) as Hword.
  { subst word. unfold raw_u32, le32, raw_byte.
    rewrite !lookup_ge_None_2 by lia. rewrite Hlen.
    by replace (4 * i + 0)%nat with (4 * i)%nat by lia. }
  assert (dump_uid_step U "" i =
    (if (i mod 4 =? 0)%nat then group_header (i / 4) else "")
      +:+ word_text (i mod 4) (raw_u32 U i)) as Hstep.
  { assert (dump_uid_step U "" (4 * (i / 4) + i mod 4) = dump_uid_step U "" i) as <-
      by (f_equal; lia).
    rewrite dump_uid_step_at by lia. do 3 f_equal. lia. }
  unfold AddToIndexAndCheck. cbv zeta. rewrite Hidx, Hlook.
  cbn [negb default from_option id].
  assert ((strcmp old T =? 0) = false) as ->
    by (apply Z.eqb_neq; by rewrite strcmp_eq).
  cbn [negb snd files]. unfold dump_path, dump_uid, GetUidDataSize.
  rewrite dump_uid_fold, (seq_split_at i sizeof_uid_data) by lia.
  rewrite fmap_app, fmap_cons, cat_app.
  change (cat (dump_uid_step U "" i :: ?l)) with (dump_uid_step U "" i +:+ cat l).
  rewrite Hstep, Hword. unfold word_text. by rewrite !app_assoc_s.
Qed.
End UidChecker_diagnostics.

Lemma AddToIndexAndCheck_frame_witness :
  let V := {| values := bytes_of [0; 5; 5; 5; 5]%N; HASH := 0 |} in
  let st := AddToIndexAndCheck (D := uid5) (H := host0) "v" V "Pixel" "ps_"
              (UidChecker_new, Diagnostics_new) in
  let st' := AddToIndexAndCheck (D := uid5) (H := host0) "u" uid5_a "Pixel" "ps_" st in
  m_shaders (fst st') !! meaningful (D := uid5) V
    = m_shaders (fst st) !! meaningful (D := uid5) V ∧
  uid_is_indexed (D := uid5) (fst st') V = uid_is_indexed (D := uid5) (fst st) V ∧
  m_uids (fst st) `prefix_of` m_uids (fst st').
Proof.
  apply (AddToIndexAndCheck_frame (D := uid5) (H := host0) "u" uid5_a
           {| values := bytes_of [0; 5; 5; 5; 5]%N; HASH := 0 |} "Pixel" "ps_").
  reflexivity.
Defined.

Lemma first_text_kept_witness :
  let st := AddToIndexAndCheck (D := uid5) (H := host0) "first" uid5_a "Pixel" "ps_"
              (UidChecker_new, Diagnostics_new) in
  let st' := add_all (D := uid5) (H := host0)
               [("second", uid5_a);
                ("v", {| values := bytes_of [0; 5; 5; 5; 5]%N; HASH := 0 |});
                ("third", uid5_a)] "Pixel" "ps_" st in
  uid_is_indexed (D := uid5) (fst st') uid5_a = true ∧
  m_shaders (fst st') !! meaningful (D := uid5) uid5_a = Some "first".
Proof.
  apply (first_text_kept (D := uid5) (H := host0)
           [("second", uid5_a);
            ("v", {| values := bytes_of [0; 5; 5; 5; 5]%N; HASH := 0 |});
            ("third", uid5_a)] "Pixel" "ps_"); reflexivity.
Defined.

Lemma dumps_count_differences_witness :
  let st' := add_all (D := uid5) (H := host0)
               ((λ T, (T, uid5_a)) <$> ["a"; "b"; "a"; "b"]) "Pixel" "ps_"
               (UidChecker_new, Diagnostics_new) in
  length (files (snd st')) =
    (0 + length (filter (λ T, c_str T ≠ c_str "a") ["b"; "a"; "b"]))%nat ∧
  m_shaders (fst st') !! meaningful (D := uid5) uid5_a = Some (c_str "a") ∧
  uid_count (D := uid5) (fst st') uid5_a = 1%nat.
Proof.
  apply (dumps_count_differences (D := uid5) (H := host0) "a" ["b"; "a"; "b"] uid5_a
           "Pixel" "ps_" (UidChecker_new, Diagnostics_new)).
  reflexivity.
Defined.

Lemma dump_reads_past_record_witness :
  let st := AddToIndexAndCheck (D := uid5) (H := host0) "old" uid5_a "Pixel" "ps_"
              (UidChecker_new, Diagnostics_new) in
  let word :=
    le32 (past_the_end (Host := host0) uid5_a (4 * 2 - 5))
         (past_the_end (Host := host0) uid5_a (4 * 2 + 1 - 5))
         (past_the_end (Host := host0) uid5_a (4 * 2 + 2 - 5))
         (past_the_end (Host := host0) uid5_a (4 * 2 + 3 - 5)) in
  files (snd (AddToIndexAndCheck (D := uid5) (H := host0) "new" uid5_a "Pixel" "ps_" st)) =
    (files (snd st) ++
      [(dump_path (H := host0) "ps_" (num_failures (snd st) + 1),
        "Old shader code:" +:+ nl +:+ "old" +:+ nl +:+ nl
          +:+ "New shader code:" +:+ nl +:+ c_str "new" +:+ nl +:+ nl
          +:+ "Shader uid:" +:+ nl
          +:+ cat (dump_uid_step (D := uid5) (H := host0) uid5_a "" <$> seq 0 2)
          +:+ (if (2 mod 4 =? 0)%nat then group_header (D := uid5) (2 / 4) else "")
          +:+ setw 8 "0" (hex word)
          +:+ (if (2 mod 4 <? 3)%nat then " " else nl)
          +:+ cat (dump_uid_step (D := uid5) (H := host0) uid5_a "" <$> seq 3 (5 - 3)))])%list.
Proof.
  apply (dump_reads_past_record (D := uid5) (H := host0) "new" uid5_a "Pixel" "ps_"
           (AddToIndexAndCheck (D := uid5) (H := host0) "old" uid5_a "Pixel" "ps_"
              (UidChecker_new, Diagnostics_new)) "old" 2).
  - reflexivity.
  - vm_compute. lia.
  - reflexivity.
  - reflexivity.
  - vm_compute. discriminate.
Defined.

(** ** The encoders and their dispatcher, further *)

Lemma total_length_cat ws : total_length ws = String.length (cat ws).
Proof.
  induction ws as [|w ws IH]; [done|].
  change (cat (w :: ws)) with (w +:+ cat ws).
  change (total_length (w :: ws)) with (String.length w + total_length ws)%nat.
  by rewrite length_app_s, IH.
Qed.

Section Encoders_more.
Context `{V : VideoCommon}.

(** X11: at any point of a run, between two calls of
    [GenerateEncodingShader], [text] has its [sizeof(text)] bytes and the
    two statics of the encoders are at rest ([false] and 0), whichever
    format codes were asked for, known or not. *)
Theorem run_calls_invariant (formats : list Z) :
  length (text (run_calls formats)) = TEXT_SIZE ∧
  IntensityConstantAdded (run_calls formats) = false ∧
  s_incrementSampleXCount (run_calls formats) = 0.
Proof.
  split; [|apply run_calls_statics].
  unfold run_calls.
  assert (length (text Encoder_init) = TEXT_SIZE) as Hinit by apply length_replicate.
  revert Hinit. generalize Encoder_init.
  induction formats as [|format formats IH]; intros e He; [done|].
  cbn [fold_left]. apply IH. by rewrite length_text_GenerateEncodingShader.
Qed.

(** X12: for a format code outside the switch, what
    [GenerateEncodingShader] returns after its alert is the text a call
    before it left in [text]: when that call left the canary in place,
    the string returned is the same one again. *)
Theorem unknown_format_returns_previous (format unknown : Z) (e : Encoder) :
  format_of_u32 unknown = None →
  let r1 := GenerateEncodingShader format e in
  let r2 := GenerateEncodingShader unknown (snd r1) in
  text (snd r1) !! (TEXT_SIZE - 1)%nat = Some canary →
  fst r2 = fst r1 ∧
  text (snd r2) = text (snd r1) ∧
  alerts (snd r2) =
    (alerts (snd r1) ++ [ln ("Unknown texture copy format: 0x" +:+ hex unknown)])%list.
Proof.
  intros Hunknown r1 r2 Hcanary.
  assert (fst r1 = c_str (string_of_list_ascii (text (snd r1)))) as Hr1.
  { subst r1. rewrite GenerateEncodingShader_eq. cbv zeta. cbn [fst snd].
    by destruct (bool_decide _). }
  assert (r2 =
    (c_str (string_of_list_ascii (text (snd r1))),
     {| p := 0; text := text (snd r1);
        IntensityConstantAdded := IntensityConstantAdded (snd r1);
        s_incrementSampleXCount := s_incrementSampleXCount (snd r1);
        alerts := alerts (snd r1) ++
                    [ln ("Unknown texture copy format: 0x" +:+ hex unknown)] |})) as ->.
  { subst r2. rewrite GenerateEncodingShader_eq. cbv zeta. unfold dispatch.
    rewrite Hunknown.
    unfold at_switch, mbind, M_bind, set_text, set_p, PanicAlert. cbn [fst snd text].
    rewrite (list_insert_id _ _ _ Hcanary). by rewrite bool_decide_eq_true_2. }
  by rewrite Hr1.
Qed.

(** X13: [WriteIncrementSampleX] writes nothing; it only counts.  After
    [n] of them that stay within the range of the [int] counter,
    [WriteSampleColor] writes the one line that samples at the offset
    [count + n], [count] being the static's value before. *)
Theorem WriteIncrementSampleX_counts (n : nat) (colorComp dest : string) (e : Encoder) :
  INT_MIN ≤ s_incrementSampleXCount e →
  s_incrementSampleXCount e + Z.of_nat n ≤ INT_MAX →
  let e' := snd (for_ (replicate n ()) (λ _, WriteIncrementSampleX) e) in
  text e' = text e ∧ p e' = p e ∧
  s_incrementSampleXCount e' = s_incrementSampleXCount e + Z.of_nat n ∧
  INT_MIN ≤ s_incrementSampleXCount e' ≤ INT_MAX ∧
  WriteSampleColor colorComp dest e' =
    WRITE (ln ("  " +:+ dest +:+ " = tex2D(samp0, sampleUv + float2("
                 +:+ dec (s_incrementSampleXCount e + Z.of_nat n)
                 +:+ ".0f * (" +:+ I_COLORS +:+ "[0].x / " +:+ I_COLORS
                 +:+ "[0].z), 0.0f))." +:+ colorComp +:+ ";")) e'.
Proof.
  intros Hmin Hmax e'.
  assert (text e' = text e ∧ p e' = p e ∧
          s_incrementSampleXCount e' = s_incrementSampleXCount e + Z.of_nat n)
    as (Ht & Hp & Hn).
  { subst e'. clear Hmin Hmax. revert e. induction n as [|n IH]; intros e.
    - simpl. split_and!; [done..|lia].
    - destruct (IH (snd (WriteIncrementSampleX e))) as (Ht & Hp & Hn).
      change (snd (for_ (replicate (S n) ()) (λ _, WriteIncrementSampleX) e))
        with (snd (for_ (replicate n ()) (λ _, WriteIncrementSampleX)
                     (snd (WriteIncrementSampleX e)))).
      rewrite Ht, Hp, Hn. split_and!; [done..|].
      unfold WriteIncrementSampleX, mbind, M_bind, get, set_s_incrementSampleXCount.
      cbn [fst snd s_incrementSampleXCount]. lia. }
  split; [done|]. split; [done|]. split; [done|]. split; [lia|].
  unfold WriteSampleColor, mbind, M_bind, get. cbn [fst snd]. by rewrite Hn.
Qed.

(** X14: the declaration of [IntensityConst] goes out once: of two
    [WriteColorToIntensity] in a row the second writes its [dot] line
    only, and the first writes the declaration only if none was written
    since the last [WriteEncoderEnd]. *)
Theorem IntensityConst_declared_once (src1 dest1 src2 dest2 : string) (e : Encoder) :
  let e2 := snd ((WriteColorToIntensity src1 dest1 ;; WriteColorToIntensity src2 dest2) e) in
  text e2 =
    sprintf_all (text e) (p e)
      ((if IntensityConstantAdded e then []
        else [ln "  float4 IntensityConst = float4(0.257f,0.504f,0.098f,0.0625f);"])
       ++ [ln ("  " +:+ dest1 +:+ " = dot(IntensityConst.rgb, " +:+ src1 +:+ ".rgb);");
           ln ("  " +:+ dest2 +:+ " = dot(IntensityConst.rgb, " +:+ src2 +:+ ".rgb);")]) ∧
  IntensityConstantAdded e2 = true.
Proof.
  unfold WriteColorToIntensity, mbind, M_bind, get. cbn [fst snd].
  destruct (IntensityConstantAdded e) eqn:Hadded; cbn [negb].
  - unfold mret, M_ret, WRITE. cbn [fst snd IntensityConstantAdded text p negb].
    rewrite Hadded. by cbn [negb fst snd text p IntensityConstantAdded sprintf_all app].
  - unfold mret, M_ret, WRITE, set_IntensityConstantAdded, mbind, M_bind.
    by cbn [fst snd IntensityConstantAdded text p negb sprintf_all app].
Qed.

(** The terminating NUL of a text of [sizeof(text) - 1] characters is
    written on the last byte of [text]. *)
Lemma terminator_on_canary (format : Z) (e : Encoder) :
  length (text e) = TEXT_SIZE →
  p (snd (dispatch format (at_switch e))) = (TEXT_SIZE - 1)%nat →
  text (snd (dispatch format (at_switch e))) !! (TEXT_SIZE - 1)%nat = Some NUL ∧
  length (text (snd (dispatch format (at_switch e)))) = TEXT_SIZE.
Proof.
  intros Hlen Hp.
  destruct (dispatch_text format e) as (ws & Hpws & Htext).
  assert (ws ≠ []) as Hne.
  { intros ->. rewrite Hp in Hpws. change (total_length []) with 0%nat in Hpws.
    unfold TEXT_SIZE in Hpws. lia. }
  split; [|by rewrite Htext, length_sprintf_all, length_insert].
  rewrite Htext, sprintf_all_cat by done. unfold sprintf.
  rewrite lookup_inserts, length_insert, Hlen, length_app, length_list_ascii_of_string.
  rewrite <-total_length_cat, <-Hpws, Hp. simpl length.
  rewrite decide_True by (unfold TEXT_SIZE; lia).
  rewrite lookup_app_r by (rewrite length_list_ascii_of_string, <-total_length_cat; lia).
  rewrite length_list_ascii_of_string, <-total_length_cat, <-Hpws, Hp.
  by replace (TEXT_SIZE - 1 - 0 - (TEXT_SIZE - 1))%nat with 0%nat by lia.
Qed.

(** After the switch left a NUL on the last byte, the alert is raised. *)
Lemma eaten_canary_alert (format : Z) (e : Encoder) :
  text (snd (dispatch format (at_switch e))) !! (TEXT_SIZE - 1)%nat = Some NUL →
  snd (GenerateEncodingShader format e) =
    snd (PanicAlert canary_message (snd (dispatch format (at_switch e)))).
Proof.
  intros Hnul. rewrite GenerateEncodingShader_eq. cbv zeta. rewrite Hnul.
  by rewrite bool_decide_eq_false_2.
Qed.

(** X15: the canary also goes when the text exactly fills the buffer: an
    emitted text of [sizeof(text) - 1] characters puts its terminating
    NUL on the last byte, and the 'canary has been eaten' alert is raised
    although nothing was written outside [text]. *)
Theorem canary_eaten_by_terminator (format : Z) (e : Encoder) :
  length (text e) = TEXT_SIZE →
  let e1 := snd (dispatch format (at_switch e)) in
  p e1 = (TEXT_SIZE - 1)%nat →
  text e1 !! (TEXT_SIZE - 1)%nat = Some NUL ∧
  length (text e1) = TEXT_SIZE ∧
  alerts (snd (GenerateEncodingShader format e)) = (alerts e1 ++ [canary_message])%list.
Proof.
  intros Hlen e1 Hp.
  destruct (terminator_on_canary format e Hlen Hp) as [Hnul Hlen1]. fold e1 in Hnul, Hlen1.
  split; [done|]. split; [done|].
  by rewrite (eaten_canary_alert format e Hnul).
Qed.
End Encoders_more.


Lemma WriteIncrementSampleX_counts_witness :
  let e' := snd (for_ (replicate 3 ()) (λ _, WriteIncrementSampleX) Encoder_init) in
  text e' = text Encoder_init ∧ p e' = p Encoder_init ∧
  s_incrementSampleXCount e' = s_incrementSampleXCount Encoder_init + Z.of_nat 3 ∧
  INT_MIN ≤ s_incrementSampleXCount e' ≤ INT_MAX ∧
  WriteSampleColor (V := sample_video) "r" "color0" e' =
    WRITE (ln ("  " +:+ "color0" +:+ " = tex2D(samp0, sampleUv + float2("
                 +:+ dec (s_incrementSampleXCount Encoder_init + Z.of_nat 3)
                 +:+ ".0f * (" +:+ I_COLORS (VideoCommon := sample_video) +:+ "[0].x / "
                 +:+ I_COLORS (VideoCommon := sample_video)
                 +:+ "[0].z), 0.0f))." +:+ "r" +:+ ";")) e'.
Proof.
  apply (WriteIncrementSampleX_counts (V := sample_video) 3 "r" "color0" Encoder_init).
  - vm_compute. discriminate.
  - vm_compute. discriminate.
Defined.

Lemma unknown_format_returns_previous_witness :
  let r1 := GenerateEncodingShader (V := sample_video) 5 Encoder_init in
  let r2 := GenerateEncodingShader (V := sample_video) 77 (snd r1) in
  fst r2 = fst r1 ∧
  text (snd r2) = text (snd r1) ∧
  alerts (snd r2) =
    (alerts (snd r1) ++ [ln ("Unknown texture copy format: 0x" +:+ hex 77)])%list.
Proof.
  apply (unknown_format_returns_previous (V := sample_video) 5 77 Encoder_init).
  - reflexivity.
  - vm_compute. reflexivity.
Defined.

Lemma canary_eaten_by_terminator_witness :
  let e1 := snd (dispatch (V := long_video) 5 (at_switch Encoder_init)) in
  text e1 !! (TEXT_SIZE - 1)%nat = Some NUL ∧
  length (text e1) = TEXT_SIZE ∧
  alerts (snd (GenerateEncodingShader (V := long_video) 5 Encoder_init))
    = (alerts e1 ++ [canary_message])%list.
Proof.
  apply (canary_eaten_by_terminator (V := long_video) 5 Encoder_init).
  - reflexivity.
  - vm_compute. reflexivity.
Defined.

(** ** NUL-free texts and reading a buffer back *)

Lemma nul_free_app a b : nul_free (a +:+ b) = nul_free a && nul_free b.
Proof.
  unfold nul_free. by rewrite list_ascii_of_string_app, forallb_app.
Qed.

Lemma nul_free_app_2 a b :
  nul_free a = true → nul_free b = true → nul_free (a +:+ b) = true.
Proof. intros Ha Hb. by rewrite nul_free_app, Ha, Hb. Qed.

Lemma nul_free_ln s : nul_free s = true → nul_free (ln s) = true.
Proof. intros Hs. by apply nul_free_app_2. Qed.

Lemma nul_free_cons c s :
  nul_free (String c s) = negb (Ascii.eqb c NUL) && nul_free s.
Proof. reflexivity. Qed.

Lemma nul_free_fill_string n c :
  Ascii.eqb c NUL = false → nul_free (fill_string n c) = true.
Proof.
  intros Hc. induction n as [|n IH]; [done|].
  cbn [fill_string]. by rewrite nul_free_cons, Hc, IH.
Qed.

Lemma nul_free_setw w c s :
  Ascii.eqb c NUL = false → nul_free s = true → nul_free (setw w c s) = true.
Proof. intros Hc Hs. apply nul_free_app_2; [by apply nul_free_fill_string|done]. Qed.

Lemma nul_free_pretty_N_go x s :
  nul_free s = true → nul_free (pretty_N_go x s) = true.
Proof.
  revert s. induction (N.lt_wf_0 x) as [x _ IH]; intros s Hs.
  assert (x = 0 ∨ 0 < x)%N as [->|Hx] by lia.
  - by rewrite pretty_N_go_0.
  - rewrite pretty_N_go_step by done. apply IH; [by apply N.div_lt|].
    rewrite nul_free_cons, Hs, andb_true_r.
    unfold pretty_N_char. by repeat case_match.
Qed.

Lemma nul_free_dec n : nul_free (dec n) = true.
Proof.
  unfold dec, pretty, pretty_Z. destruct n as [|q|q]; [done| |].
  - unfold pretty, pretty_positive, pretty, pretty_N. case_decide; [done|].
    by apply nul_free_pretty_N_go.
  - apply nul_free_app_2; [done|].
    unfold pretty, pretty_positive, pretty, pretty_N. case_decide; [done|].
    by apply nul_free_pretty_N_go.
Qed.

Lemma nul_free_fmt_f x : nul_free (fmt_f x) = true.
Proof.
  unfold fmt_f. apply nul_free_app_2; [by destruct (x ?= 0)%Q|].
  apply nul_free_app_2; [apply nul_free_dec|].
  apply nul_free_app_2; [done|]. apply nul_free_setw; [done|apply nul_free_dec].
Qed.

Lemma nul_free_fmt_d_u32 v : nul_free (fmt_d_u32 v) = true.
Proof.
  unfold fmt_d_u32. destruct (v <? 2 ^ 31); [apply nul_free_dec|].
  apply nul_free_app_2; [done|apply nul_free_dec].
Qed.

Lemma nul_free_cat ws :
  Forall (λ w, nul_free w = true) ws → nul_free (cat ws) = true.
Proof.
  induction 1 as [|w ws Hw _ IH]; [done|].
  change (cat (w :: ws)) with (w +:+ cat ws). by apply nul_free_app_2.
Qed.

(** The C string read from a buffer that holds a NUL-free text and its
    terminator is that text. *)
Lemma c_str_terminated s rest :
  nul_free s = true →
  c_str (string_of_list_ascii (list_ascii_of_string s ++ NUL :: rest)) = s.
Proof.
  induction s as [|c s IH]; intros Hs; [done|].
  rewrite nul_free_cons in Hs. apply andb_true_iff in Hs as [Hc Hs].
  apply negb_true_iff in Hc. cbn [list_ascii_of_string app string_of_list_ascii c_str].
  rewrite Hc. by rewrite IH.
Qed.

Lemma sprintf_split t b s :
  (b + String.length s < length t)%nat →
  sprintf t b s =
    (take b t ++ list_ascii_of_string s ++ NUL :: drop (b + String.length s + 1) t)%list.
Proof.
  intros Hfit. unfold sprintf.
  rewrite <-(take_drop b t) at 1.
  assert (length (take b t) = b) as Hb by (rewrite length_take; lia).
  rewrite <-(Nat.add_0_r b) at 1. rewrite <-Hb at 1.
  rewrite list_inserts_app_r. f_equal.
  set (k := (list_ascii_of_string s ++ [NUL])%list).
  assert (length k = (String.length s + 1)%nat) as Hk
    by (subst k; rewrite length_app, length_list_ascii_of_string; done).
  rewrite <-(take_drop (length k) (drop b t)).
  rewrite list_inserts_0_r by (rewrite length_take, length_drop; lia).
  rewrite drop_drop, Hk. subst k. rewrite <-(assoc_L (++)). simpl.
  do 3 f_equal. lia.
Qed.

(** What [sprintf] wrote at [b] reads back from [b]. *)
Lemma sprintf_read_back t b s :
  nul_free s = true → (b + String.length s < length t)%nat →
  c_str (string_of_list_ascii (drop b (sprintf t b s))) = s.
Proof.
  intros Hs Hfit. rewrite sprintf_split by done.
  rewrite drop_app_length' by (rewrite length_take; lia).
  by apply c_str_terminated.
Qed.

(** ** ShaderCode and DeclareUniform *)

Import ShaderGenCommon.

Lemma Write_all_ShaderCode outs c mem w :
  write_ptr c = Some w →
  Write_all outs c mem =
    Some ({| buf := buf c; write_ptr := Some (w + total_length outs)%nat |},
          sprintf_all mem w outs).
Proof.
  revert c mem w. induction outs as [|out outs IH]; intros c mem w Hw.
  - simpl. rewrite Nat.add_0_r. destruct c. simpl in Hw. by rewrite Hw.
  - cbn [Write_all]. unfold Write at 1, ShaderCode_generator, ShaderCode_Write.
    rewrite Hw. cbn [mbind option_bind fst snd].
    rewrite (IH _ _ (w + String.length out)%nat) by done.
    cbn [buf sprintf_all]. do 4 f_equal.
    change (total_length (out :: outs)) with (String.length out + total_length outs)%nat.
    lia.
Qed.

(** X16: [ShaderCode]: after [SetBuffer] and a series of [Write]s of
    NUL-free texts that fit in the memory behind the buffer, [GetBuffer]
    is still the buffer set, [BufferSize] is the number of characters
    written, the C string at the buffer is the texts one after the other,
    and memory before the buffer is untouched. *)
Theorem ShaderCode_read_back (b : nat) (outs : list string) (c : ShaderCode)
    (mem : list ascii) :
  Forall (λ out, nul_free out = true) outs → outs ≠ [] →
  (b + total_length outs < length mem)%nat →
  ∃ c' mem',
    Write_all outs (SetBuffer (Some b) c) mem = Some (c', mem') ∧
    GetBuffer c' = Some b ∧
    BufferSize c' = Z.of_nat (total_length outs) ∧
    c_str (string_of_list_ascii (drop b mem')) = cat outs ∧
    take b mem' = take b mem ∧ length mem' = length mem.
Proof.
  intros Hclean Hne Hfit.
  eexists _, _. split; [by apply Write_all_ShaderCode|].
  rewrite sprintf_all_cat by done. rewrite total_length_cat in Hfit |- *.
  split_and!.
  - done.
  - unfold BufferSize. simpl. lia.
  - by apply sprintf_read_back; [apply nul_free_cat|].
  - rewrite sprintf_split by done. by rewrite take_app_length' by (rewrite length_take; lia).
  - apply length_sprintf.
Qed.

Section DeclareUniform_facts.
Context {API_TYPE : Type} `{EqDecision API_TYPE} (API_OPENGL : API_TYPE).

Lemma ShaderCode_Write_Write a b (c : ShaderCode) mem :
  (r ← Write a c mem; Write b (fst r) (snd r)) = Write (a +:+ b) c mem.
Proof.
  unfold Write, ShaderCode_generator, ShaderCode_Write.
  destruct (write_ptr c) as [w|] eqn:Hw; [|done].
  cbn [mbind option_bind fst snd write_ptr buf].
  by rewrite sprintf_sprintf, length_app_s, Nat.add_assoc.
Qed.

(** X17: [DeclareUniform] on a [ShaderCode] leaves what a single [Write]
    of the whole declaration leaves: ["uniform "], the type, the name,
    [" : register(c<num>)"] and [";\n"], without the first and the
    fourth part when [api_type] is [API_OPENGL].  On a [ShaderUid], whose
    [Write] does nothing, it changes neither the uid nor memory. *)
Theorem DeclareUniform_text (api_type : API_TYPE) (num : Z) (type name : string)
    (c : ShaderCode) (u : ShaderUid) (mem : list ascii) :
  DeclareUniform API_OPENGL api_type c num type name mem =
    Write (uniform_declaration (bool_decide (api_type = API_OPENGL)) num type name) c mem ∧
  DeclareUniform API_OPENGL api_type u num type name mem = Some (u, mem).
Proof.
  split.
  - unfold DeclareUniform, WriteLocation, WriteRegister, uniform_declaration.
    unfold Write, ShaderCode_generator, ShaderCode_Write.
    destruct (decide (api_type = API_OPENGL)) as [Hgl|Hgl].
    + rewrite bool_decide_eq_true_2 by done.
      cbn [mbind option_bind fst snd].
      destruct (write_ptr c) as [w|] eqn:Hw; [|done].
      cbn [mbind option_bind fst snd write_ptr buf].
      rewrite sprintf_sprintf, <-Nat.add_assoc, <-length_app_s.
      by rewrite !app_assoc_s.
    + rewrite bool_decide_eq_false_2 by done.
      destruct (write_ptr c) as [w|] eqn:Hw; [|done].
      cbn [mbind option_bind fst snd write_ptr buf].
      rewrite !sprintf_sprintf, <-!Nat.add_assoc, <-!length_app_s.
      by rewrite !app_assoc_s.
  - unfold DeclareUniform, WriteLocation, WriteRegister, Write, ShaderUid_generator.
    by destruct (decide (api_type = API_OPENGL)).
Qed.
End DeclareUniform_facts.

Lemma ShaderCode_read_back_witness :
  ∃ c' mem',
    Write_all ["float4 "; "x;"] (SetBuffer (Some 2%nat) ShaderCode_new) (replicate 16 "#"%char)
      = Some (c', mem') ∧
    GetBuffer c' = Some 2%nat ∧
    BufferSize c' = Z.of_nat (total_length ["float4 "; "x;"]) ∧
    c_str (string_of_list_ascii (drop 2 mem')) = cat ["float4 "; "x;"] ∧
    take 2 mem' = take 2 (replicate 16 "#"%char) ∧
    length mem' = length (replicate 16 "#"%char).
Proof.
  apply (ShaderCode_read_back 2 ["float4 "; "x;"] ShaderCode_new (replicate 16 "#"%char)).
  - by repeat constructor.
  - discriminate.
  - vm_compute. lia.
Defined.

(** ** What GenerateEncodingShader returns *)

Lemma CleanWrites_ret {A} (a : A) : CleanWrites (mret a).
Proof. intros e. exists []. split_and!; [done|simpl; lia|done]. Qed.

Lemma CleanWrites_bind {A B} (m : M A) (k : A → M B) :
  CleanWrites m → (∀ a, CleanWrites (k a)) → CleanWrites (m ≫= k).
Proof.
  intros Hm Hk e.
  destruct (Hm e) as (ws1 & Hc1 & Hp1 & Ht1).
  destruct (Hk (fst (m e)) (snd (m e))) as (ws2 & Hc2 & Hp2 & Ht2).
  exists (ws1 ++ ws2)%list. unfold mbind, M_bind. cbn [fst snd]. split_and!.
  - by apply Forall_app.
  - rewrite Hp2, Hp1, total_length_app. lia.
  - by rewrite Ht2, Ht1, Hp1, sprintf_all_app.
Qed.

Lemma CleanWrites_WRITE s : nul_free s = true → CleanWrites (WRITE s).
Proof.
  intros Hs e. exists [s]. split_and!; [by constructor|simpl; lia|done].
Qed.

Lemma CleanWrites_get {A} (f : Encoder → A) : CleanWrites (get f).
Proof. intros e. exists []. split_and!; [done|simpl; lia|done]. Qed.

Lemma CleanWrites_set_added b : CleanWrites (set_IntensityConstantAdded b).
Proof. intros e. exists []. split_and!; [done|simpl; lia|done]. Qed.

Lemma CleanWrites_set_count v : CleanWrites (set_s_incrementSampleXCount v).
Proof. intros e. exists []. split_and!; [done|simpl; lia|done]. Qed.

Lemma CleanWrites_for {A} (l : list A) (body : A → M unit) :
  (∀ i, CleanWrites (body i)) → CleanWrites (for_ l body).
Proof.
  intros Hbody. induction l as [|i l IH]; simpl; [apply CleanWrites_ret|].
  apply CleanWrites_bind; [apply Hbody|]. by intros _.
Qed.

Lemma EndsClean_bind {A B} (m : M A) (k : A → M B) :
  CleanWrites m → (∀ a, EndsClean (k a)) → EndsClean (m ≫= k).
Proof.
  intros Hm Hk e.
  destruct (Hm e) as (ws1 & Hc1 & Hp1 & Ht1).
  destruct (Hk (fst (m e)) (snd (m e))) as (ws2 & Hc2 & Hp2 & Ht2).
  exists (ws1 ++ ws2)%list. unfold mbind, M_bind. cbn [fst snd].
  rewrite <-(assoc_L (++)). split_and!.
  - by apply Forall_app.
  - rewrite Hp2, Hp1, (total_length_app ws1). lia.
  - by rewrite Ht2, Ht1, Hp1, (sprintf_all_app _ _ ws1).
Qed.

Lemma EndsClean_WriteEncoderEnd `{V : VideoCommon} : EndsClean WriteEncoderEnd.
Proof. intros e. exists []. split_and!; [done|simpl; lia|done]. Qed.

Section Encoders_clean.
Context `{V : VideoCommon}.
Hypothesis I_COLORS_clean : nul_free I_COLORS = true.

(** Splits a text into its parts; the literals are checked by
    evaluation. *)
Ltac nul_free :=
  repeat lazymatch goal with
  | |- nul_free (ln _) = true => apply nul_free_ln
  | |- nul_free (_ +:+ _) = true => apply nul_free_app_2
  | |- nul_free (fmt_f _) = true => apply nul_free_fmt_f
  | |- nul_free (dec _) = true => apply nul_free_dec
  | |- nul_free (fmt_d_u32 _) = true => apply nul_free_fmt_d_u32
  | |- nul_free (TextureConversionShaderDX.WriteRegister _ _) = true =>
      unfold TextureConversionShaderDX.WriteRegister
  | |- nul_free _ = true => first [assumption | reflexivity]
  end.

Lemma CleanWrites_WriteSwizzler format : CleanWrites (WriteSwizzler format).
Proof.
  unfold WriteSwizzler.
  repeat lazymatch goal with
  | |- CleanWrites (let _ := _ in _) => cbv zeta
  | |- CleanWrites (mbind _ _) => apply CleanWrites_bind; [|intros ?]
  | |- CleanWrites (WRITE _) => apply CleanWrites_WRITE; nul_free
  end.
Qed.

Lemma CleanWrites_Write32BitSwizzler format : CleanWrites (Write32BitSwizzler format).
Proof.
  unfold Write32BitSwizzler.
  repeat lazymatch goal with
  | |- CleanWrites (let _ := _ in _) => cbv zeta
  | |- CleanWrites (mbind _ _) => apply CleanWrites_bind; [|intros ?]
  | |- CleanWrites (WRITE _) => apply CleanWrites_WRITE; nul_free
  end.
Qed.

Lemma CleanWrites_WriteSampleColor colorComp dest :
  nul_free colorComp = true → nul_free dest = true →
  CleanWrites (WriteSampleColor colorComp dest).
Proof.
  intros Hc Hd. unfold WriteSampleColor.
  apply CleanWrites_bind; [apply CleanWrites_get|intros n].
  apply CleanWrites_WRITE. nul_free.
Qed.

Lemma CleanWrites_WriteColorToIntensity src dest :
  nul_free src = true → nul_free dest = true →
  CleanWrites (WriteColorToIntensity src dest).
Proof.
  intros Hs Hd. unfold WriteColorToIntensity.
  apply CleanWrites_bind; [apply CleanWrites_get|intros added].
  apply CleanWrites_bind; [|intros _; apply CleanWrites_WRITE; nul_free].
  destruct (negb added); [|apply CleanWrites_ret].
  apply CleanWrites_bind; [by apply CleanWrites_WRITE|intros _; apply CleanWrites_set_added].
Qed.

Lemma CleanWrites_WriteIncrementSampleX : CleanWrites WriteIncrementSampleX.
Proof.
  unfold WriteIncrementSampleX.
  apply CleanWrites_bind; [apply CleanWrites_get|intros n; apply CleanWrites_set_count].
Qed.

Lemma CleanWrites_WriteToBitDepth depth src dest :
  nul_free src = true → nul_free dest = true →
  CleanWrites (WriteToBitDepth depth src dest).
Proof.
  intros Hs Hd. unfold WriteToBitDepth. cbv zeta. apply CleanWrites_WRITE. nul_free.
Qed.

(** One statement of an encoder at a time. *)
Ltac clean :=
  repeat lazymatch goal with
  | |- CleanWrites (mbind _ _) => apply CleanWrites_bind; [|intros ?]
  | |- CleanWrites (for_ _ _) => apply CleanWrites_for; intros ?
  | |- CleanWrites (WRITE _) => apply CleanWrites_WRITE; nul_free
  | |- CleanWrites (WriteSwizzler _) => apply CleanWrites_WriteSwizzler
  | |- CleanWrites (Write32BitSwizzler _) => apply CleanWrites_Write32BitSwizzler
  | |- CleanWrites (WriteSampleColor _ _) => apply CleanWrites_WriteSampleColor; nul_free
  | |- CleanWrites (WriteColorToIntensity _ _) =>
      apply CleanWrites_WriteColorToIntensity; nul_free
  | |- CleanWrites WriteIncrementSampleX => apply CleanWrites_WriteIncrementSampleX
  | |- CleanWrites (WriteToBitDepth _ _ _) => apply CleanWrites_WriteToBitDepth; nul_free
  end.

Ltac ends :=
  repeat lazymatch goal with
  | |- EndsClean (mbind _ _) => apply EndsClean_bind; [clean|intros ?]
  | |- EndsClean WriteEncoderEnd => apply EndsClean_WriteEncoderEnd
  end.

Lemma EndsClean_WriteI8Encoder : EndsClean WriteI8Encoder.
Proof. unfold WriteI8Encoder. ends. Qed.
Lemma EndsClean_WriteI4Encoder : EndsClean WriteI4Encoder.
Proof. unfold WriteI4Encoder. ends. Qed.
Lemma EndsClean_WriteIA8Encoder : EndsClean WriteIA8Encoder.
Proof. unfold WriteIA8Encoder. ends. Qed.
Lemma EndsClean_WriteIA4Encoder : EndsClean WriteIA4Encoder.
Proof. unfold WriteIA4Encoder. ends. Qed.
Lemma EndsClean_WriteRGB565Encoder : EndsClean WriteRGB565Encoder.
Proof. unfold WriteRGB565Encoder. ends. Qed.
Lemma EndsClean_WriteRGB5A3Encoder : EndsClean WriteRGB5A3Encoder.
Proof. unfold WriteRGB5A3Encoder. ends. Qed.
Lemma EndsClean_WriteRGBA4443Encoder : EndsClean WriteRGBA4443Encoder.
Proof. unfold WriteRGBA4443Encoder. ends. Qed.
Lemma EndsClean_WriteRGBA8Encoder : EndsClean WriteRGBA8Encoder.
Proof. unfold WriteRGBA8Encoder. ends. Qed.
Lemma EndsClean_WriteC4Encoder comp :
  nul_free comp = true → EndsClean (WriteC4Encoder comp).
Proof. intros Hcomp. unfold WriteC4Encoder. ends. Qed.
Lemma EndsClean_WriteC8Encoder comp :
  nul_free comp = true → EndsClean (WriteC8Encoder comp).
Proof. intros Hcomp. unfold WriteC8Encoder. ends. Qed.
Lemma EndsClean_WriteCC4Encoder comp :
  nul_free comp = true → EndsClean (WriteCC4Encoder comp).
Proof. intros Hcomp. unfold WriteCC4Encoder. ends. Qed.
Lemma EndsClean_WriteCC8Encoder comp :
  nul_free comp = true → EndsClean (WriteCC8Encoder comp).
Proof. intros Hcomp. unfold WriteCC8Encoder. ends. Qed.
Lemma EndsClean_WriteZ8Encoder multiplier :
  nul_free multiplier = true → EndsClean (WriteZ8Encoder multiplier).
Proof. intros Hm. unfold WriteZ8Encoder. ends. Qed.
Lemma EndsClean_WriteZ16Encoder : EndsClean WriteZ16Encoder.
Proof. unfold WriteZ16Encoder. ends. Qed.
Lemma EndsClean_WriteZ16LEncoder : EndsClean WriteZ16LEncoder.
Proof. unfold WriteZ16LEncoder. ends. Qed.
Lemma EndsClean_WriteZ24Encoder : EndsClean WriteZ24Encoder.
Proof. unfold WriteZ24Encoder. ends. Qed.

Lemma EndsClean_dispatch format f :
  format_of_u32 format = Some f → EndsClean (dispatch format).
Proof.
  intros Hf. unfold dispatch. rewrite Hf.
  destruct f;
    lazymatch goal with
    | |- EndsClean WriteI8Encoder => exact EndsClean_WriteI8Encoder
    | |- EndsClean WriteI4Encoder => exact EndsClean_WriteI4Encoder
    | |- EndsClean WriteIA8Encoder => exact EndsClean_WriteIA8Encoder
    | |- EndsClean WriteIA4Encoder => exact EndsClean_WriteIA4Encoder
    | |- EndsClean WriteRGB565Encoder => exact EndsClean_WriteRGB565Encoder
    | |- EndsClean WriteRGB5A3Encoder => exact EndsClean_WriteRGB5A3Encoder
    | |- EndsClean WriteRGBA8Encoder => exact EndsClean_WriteRGBA8Encoder
    | |- EndsClean (WriteC4Encoder ?c) => exact (EndsClean_WriteC4Encoder c eq_refl)
    | |- EndsClean (WriteC8Encoder ?c) => exact (EndsClean_WriteC8Encoder c eq_refl)
    | |- EndsClean (WriteCC4Encoder ?c) => exact (EndsClean_WriteCC4Encoder c eq_refl)
    | |- EndsClean (WriteCC8Encoder ?c) => exact (EndsClean_WriteCC8Encoder c eq_refl)
    | |- EndsClean (WriteZ8Encoder ?c) => exact (EndsClean_WriteZ8Encoder c eq_refl)
    | |- EndsClean WriteZ16Encoder => exact EndsClean_WriteZ16Encoder
    | |- EndsClean WriteZ16LEncoder => exact EndsClean_WriteZ16LEncoder
    | |- EndsClean WriteZ24Encoder => exact EndsClean_WriteZ24Encoder
    end.
Qed.

(** X18: for a format of the switch, with [I_COLORS] free of NUL and an
    emitted text that ends inside [text], the string
    [GenerateEncodingShader] returns is the text its encoder wrote, whole
    and alone: it has as many characters as the encoder advanced [p], it
    is what [text] holds up to there (nothing of an earlier, longer
    shader shows), and it ends with the closing line of
    [WriteEncoderEnd]. *)
Theorem returned_text_is_emitted_text (format : Z) (f : TexFormat) (e : Encoder) :
  format_of_u32 format = Some f →
  length (text e) = TEXT_SIZE →
  let e1 := snd (dispatch format (at_switch e)) in
  (p e1 < TEXT_SIZE)%nat →
  let r := GenerateEncodingShader format e in
  String.length (fst r) = p e1 ∧
  list_ascii_of_string (fst r) = take (p e1) (text (snd r)) ∧
  nul_free (fst r) = true ∧
  ∃ body, fst r = body +:+ ln "}".
Proof.
  intros Hf Hlen e1 Hfit r.
  destruct (EndsClean_dispatch format f Hf (at_switch e)) as (ws & Hclean & Hp & Htext).
  fold e1 in Hp, Htext. change (p (at_switch e)) with 0%nat in Hp, Htext.
  set (t0 := text (at_switch e)) in *.
  assert (length t0 = TEXT_SIZE) as Hlen0.
  { subst t0. unfold at_switch, mbind, M_bind, set_text, set_p. cbn [fst snd text].
    by rewrite length_insert. }
  set (out := cat (ws ++ [ln "}"])).
  assert (p e1 = String.length out) as Hpout by (by rewrite Hp, total_length_cat).
  assert (nul_free out = true) as Hout.
  { apply nul_free_cat, Forall_app. split; [done|]. by repeat constructor. }
  rewrite sprintf_all_cat in Htext by (by destruct ws). fold out in Htext.
  assert (text (snd r) = text e1 ∧ fst r = c_str (string_of_list_ascii (text e1)))
    as [Htr Hfr].
  { subst r. rewrite GenerateEncodingShader_eq. cbv zeta. fold e1.
    by destruct (bool_decide _). }
  assert (fst r = out) as Hret.
  { rewrite Hfr, Htext, <-(drop_0 (sprintf t0 0 out)).
    apply sprintf_read_back; [done|]. rewrite Hlen0, <-Hpout. lia. }
  rewrite Hret, Htr. split_and!.
  - done.
  - rewrite Htext, sprintf_split by (rewrite Hlen0, <-Hpout; lia).
    rewrite take_0, app_nil_l, Hpout, <-length_list_ascii_of_string.
    by rewrite take_app_length.
  - done.
  - exists (cat ws). subst out. rewrite cat_app.
    change (cat [ln "}"]) with (ln "}" +:+ ""). by rewrite app_nil_r_s.
Qed.
End Encoders_clean.

Lemma returned_text_is_emitted_text_witness :
  let e := run_calls (V := sample_video) [22; 77] in
  let e1 := snd (dispatch (V := sample_video) 0 (at_switch e)) in
  let r := GenerateEncodingShader (V := sample_video) 0 e in
  String.length (fst r) = p e1 ∧
  list_ascii_of_string (fst r) = take (p e1) (text (snd r)) ∧
  nul_free (fst r) = true ∧
  ∃ body, fst r = body +:+ ln "}".
Proof.
  apply (returned_text_is_emitted_text (V := sample_video) eq_refl 0 GX_TF_I4
           (run_calls (V := sample_video) [22; 77])).
  - reflexivity.
  - vm_compute. reflexivity.
  - vm_compute. lia.
Defined.
